(** * Campus-life web application: search, personalised feed, announcement
    editing and the clubs directory.

    A shallow embedding of four asynchronous handlers of the React front end

    - [App.fetchFeaturedEvents]          (App.tsx, the personalised feed),
    - [SearchPage.performSearch]         (pages/SearchPage.tsx),
    - [EditAnnouncementModal.handleSubmit],
    - [Clubs.fetchData]                  (pages/Clubs.tsx),

    over a small model of what the handlers talk to: the query builder of
    the hosted backend, the component state they write with [setX] calls,
    and the JavaScript [try]/[catch]/[finally] they are wrapped in. *)

From Stdlib Require Import Ascii String List Bool NArith Lia OrderedTypeEx.
From stdpp Require Import base option list strings gmap sorting.

Set Default Proof Using "Type".
Open Scope string_scope.
Open Scope list_scope.
Open Scope nat_scope.

(** ** JavaScript strings

    A [string] is read as a sequence of code units below 256; code units
    above that range are outside this embedding. *)
Module Js.

(** [WhiteSpace] and [LineTerminator] code units stripped by
    [String.prototype.trim], as far as they fit in eight bits: TAB, LF, VT,
    FF, CR, SPACE and NO-BREAK SPACE. *)
Definition is_whitespace (c : ascii) : bool :=
  let n := N_of_ascii c in
  ((9 <=? n) && (n <=? 13) || (n =? 32) || (n =? 160))%N.

Fixpoint trimStart (s : string) : string :=
  match s with
  | EmptyString => EmptyString
  | String c s' => if is_whitespace c then trimStart s' else s
  end.

Definition trimEnd (s : string) : string :=
  String.rev (trimStart (String.rev s)).

Definition trim (s : string) : string := trimEnd (trimStart s).

(** [!!s] for a string: only the empty string is falsy. *)
Definition truthy (s : string) : bool := negb (s =? "")%string.

(** [!!s] for [string | null]. *)
Definition truthy_opt (s : option string) : bool :=
  match s with Some s => truthy s | None => false end.

(** ASCII case folding, as used by case-insensitive matching. *)
Definition lower (c : ascii) : ascii :=
  let n := N_of_ascii c in
  if ((65 <=? n) && (n <=? 90))%N then ascii_of_N (n + 32) else c.

End Js.

(** ** The query client

    Rows are JavaScript objects: finite maps from column names to values.
    A query is what the chained builder calls accumulate before the request
    is awaited. *)
Module Supabase.

Inductive Value :=
| VNull
| VStr (s : string)
| VBool (b : bool)
| VStrs (l : list string).   (* a text[] column *)

#[global] Instance Value_eq_dec : EqDecision Value.
Proof. solve_decision. Defined.

Abbreviation Row := (gmap string Value).

#[warnings="-register-all"]
Inductive Filter :=
| FEq (column value : string)               (* .eq(column, value) *)
| FGte (column value : string)              (* .gte(column, value) *)
| FIn (column : string) (values : list string)   (* .in(column, values) *)
| FIlike (column pattern : string)          (* column.ilike.pattern *)
| FOr (alternatives : list Filter).         (* .or('f1,f2') *)

Inductive Verb :=
| Select (columns : list string)
| Update (values : list (string * Value)).

Record Query := mkQuery {
  table : string;
  verb : Verb;
  filters : list Filter;
  ordering : option (string * bool);   (* column, ascending *)
  row_limit : option nat;
  as_single : bool
}.

(** The builder calls, each returning the extended query. *)
Definition from (t : string) : Query :=
  mkQuery t (Select ["*"]) [] None None false.
Definition select (cols : list string) (q : Query) : Query :=
  mkQuery (table q) (Select cols) (filters q) (ordering q) (row_limit q) (as_single q).
Definition update (vals : list (string * Value)) (q : Query) : Query :=
  mkQuery (table q) (Update vals) (filters q) (ordering q) (row_limit q) (as_single q).
Definition add_filter (f : Filter) (q : Query) : Query :=
  mkQuery (table q) (verb q) (filters q ++ [f]) (ordering q) (row_limit q) (as_single q).
Definition eq_ (col v : string) : Query → Query := add_filter (FEq col v).
Definition gte (col v : string) : Query → Query := add_filter (FGte col v).
Definition in_ (col : string) (vs : list string) : Query → Query :=
  add_filter (FIn col vs).
Definition or_ (fs : list Filter) : Query → Query := add_filter (FOr fs).
Definition order (col : string) (ascending : bool) (q : Query) : Query :=
  mkQuery (table q) (verb q) (filters q) (Some (col, ascending)) (row_limit q) (as_single q).
Definition limit (n : nat) (q : Query) : Query :=
  mkQuery (table q) (verb q) (filters q) (ordering q) (Some n) (as_single q).
Definition single (q : Query) : Query :=
  mkQuery (table q) (verb q) (filters q) (ordering q) (row_limit q) true.

(** A value found in the [error] slot of a response, or caught by a
    [catch] clause: its [message] and whether [instanceof Error] holds. *)
Record ErrorValue := mkError {
  message : string;
  instanceof_Error : bool
}.

(** The [{ data, error }] object a request resolves to. *)
Record Response (T : Type) := mkResponse {
  data : option T;
  error : option ErrorValue
}.
Arguments mkResponse {T} _ _.
Arguments data {T} _.
Arguments error {T} _.

(** The backend as seen from the client: list requests resolve to an
    array of rows or [null], [.single()] requests to one row or [null]. *)
Record Backend := mkBackend {
  fetch_rows : Query → Response (list Row);
  fetch_row : Query → Response Row
}.

(** [err instanceof Error ? err.message : fallback] *)
Definition error_text (fallback : string) (err : ErrorValue) : string :=
  if instanceof_Error err then message err else fallback.

(** The request [q], as the handlers send it, is answered with an error. *)
Definition failed (b : Backend) (q : Query) : Prop :=
  if as_single q then is_Some (error (fetch_row b q))
  else is_Some (error (fetch_rows b q)).

End Supabase.
Import Supabase.

Notation "q |> f" := (f q) (at level 45, left associativity, only parsing).

(** ** Asynchronous handlers

    An [async] function body is a tree: it returns, throws, awaits a
    request (and continues with the response), calls a state setter, or
    writes a console line.  [St] is the state of the component the handler
    belongs to. *)
Section Async.
Context {St : Type}.

Inductive Async (A : Type) : Type :=
| Ret (a : A)
| Throw (e : ErrorValue)
| FetchRows (q : Query) (k : Response (list Row) → Async A)
| FetchRow (q : Query) (k : Response Row → Async A)
| SetState (f : St → St) (k : Async A)
| Console (line : string) (k : Async A).
Arguments Ret {A} _.
Arguments Throw {A} _.
Arguments FetchRows {A} _ _.
Arguments FetchRow {A} _ _.
Arguments SetState {A} _ _.
Arguments Console {A} _ _.

Fixpoint bind {A B} (m : Async A) (f : A → Async B) : Async B :=
  match m with
  | Ret a => f a
  | Throw e => Throw e
  | FetchRows q k => FetchRows q (λ r, bind (k r) f)
  | FetchRow q k => FetchRow q (λ r, bind (k r) f)
  | SetState g k => SetState g (bind k f)
  | Console l k => Console l (bind k f)
  end.

(** [try { m } catch (err) { h err }] *)
Fixpoint try_catch {A} (m : Async A) (h : ErrorValue → Async A) : Async A :=
  match m with
  | Ret a => Ret a
  | Throw e => h e
  | FetchRows q k => FetchRows q (λ r, try_catch (k r) h)
  | FetchRow q k => FetchRow q (λ r, try_catch (k r) h)
  | SetState g k => SetState g (try_catch k h)
  | Console l k => Console l (try_catch k h)
  end.

(** [try { m } finally { fin }]: [fin] runs on both exits and the
    outcome of [m] is kept. *)
Fixpoint finally {A} (m : Async A) (fin : Async unit) : Async A :=
  match m with
  | Ret a => bind fin (λ _, Ret a)
  | Throw e => bind fin (λ _, Throw e)
  | FetchRows q k => FetchRows q (λ r, finally (k r) fin)
  | FetchRow q k => FetchRow q (λ r, finally (k r) fin)
  | SetState g k => SetState g (finally k fin)
  | Console l k => Console l (finally k fin)
  end.

Definition await_rows (q : Query) : Async (Response (list Row)) :=
  FetchRows q Ret.
Definition await_row (q : Query) : Async (Response Row) :=
  FetchRow q Ret.
Definition set_state (f : St → St) : Async unit := SetState f (Ret tt).
Definition console (line : string) : Async unit := Console line (Ret tt).

(** [if (error) throw error;] *)
Definition throw_if {T} (r : Response T) : Async unit :=
  match error r with
  | Some e => Throw e
  | None => Ret tt
  end.

(** *** Running a handler to completion

    The world a handler acts on: the component state, the requests sent
    so far (oldest first) and the console lines written so far. *)
Record World := mkWorld {
  ui : St;
  calls : list Query;
  console_lines : list string
}.

Definition initial (st : St) : World := mkWorld st [] [].

(** What the [async] function's promise settles to. *)
Inductive Outcome (A : Type) :=
| Fulfilled (a : A)
| Rejected (e : ErrorValue).
Arguments Fulfilled {A} _.
Arguments Rejected {A} _.

(** Every awaited request is answered by [b] before anything else
    happens: one handler running alone. *)
Fixpoint run (b : Backend) {A} (m : Async A) (w : World) : Outcome A * World :=
  match m with
  | Ret a => (Fulfilled a, w)
  | Throw e => (Rejected e, w)
  | FetchRows q k =>
      run b (k (fetch_rows b q)) (mkWorld (ui w) (calls w ++ [q]) (console_lines w))
  | FetchRow q k =>
      run b (k (fetch_row b q)) (mkWorld (ui w) (calls w ++ [q]) (console_lines w))
  | SetState g k => run b k (mkWorld (g (ui w)) (calls w) (console_lines w))
  | Console l k => run b k (mkWorld (ui w) (calls w) (console_lines w ++ [l]))
  end.

End Async.
Arguments Async : clear implicits.
Arguments World : clear implicits.
Arguments Ret {St A} _.
Arguments Throw {St A} _.
Arguments FetchRows {St A} _ _.
Arguments FetchRow {St A} _ _.
Arguments SetState {St A} _ _.
Arguments Console {St A} _ _.
Arguments Fulfilled {A} _.
Arguments Rejected {A} _.

#[global] Instance Async_ret St : MRet (Async St) := λ A, Ret.
#[global] Instance Async_bind St : MBind (Async St) := λ A B f m, bind m f.

(** ** The auth store's user object, as far as the handlers read it. *)
Module AuthStore.
Record User := mkUser {
  user_id : string;      (* user.id *)
  is_admin : bool        (* user.is_admin *)
}.

(** [user?.id] used as a condition: the id of a user whose id is a
    non-empty string, nothing otherwise. *)
Definition logged_in_id (user : option User) : option string :=
  match user with
  | Some u => if Js.truthy (user_id u) then Some (user_id u) else None
  | None => None
  end.
End AuthStore.
Import AuthStore.

(** ** App.tsx: the personalised feed of featured events *)
Module App.

Record State := mkState {
  announcements : list Row;
  loadingAnnouncements : bool;
  featuredEvents : list Row;
  loadingFeaturedEvents : bool;
  searchTerm : string
}.

Definition initialState : State := mkState [] true [] true "".

Definition setFeaturedEvents (v : list Row) (s : State) : State :=
  mkState (announcements s) (loadingAnnouncements s) v
          (loadingFeaturedEvents s) (searchTerm s).
Definition setLoadingFeaturedEvents (v : bool) (s : State) : State :=
  mkState (announcements s) (loadingAnnouncements s) (featuredEvents s)
          v (searchTerm s).

(** The three requests of [fetchFeaturedEvents]; the embedded resource
    [club:clubs ( name )] is the selected column [club]. *)
Definition profileQuery (uid : string) : Query :=
  from "profiles" |> select ["interests"] |> eq_ "id" uid |> single.

Definition interestQuery (today : string) (userInterests : list string) : Query :=
  from "events"
    |> select ["id"; "title"; "date"; "image_url"; "category"; "club"]
    |> gte "date" today
    |> in_ "category" userInterests
    |> order "date" true
    |> limit 3.

Definition fallbackQuery (today : string) : Query :=
  from "events"
    |> select ["id"; "title"; "date"; "image_url"; "club"]
    |> gte "date" today
    |> order "date" true
    |> limit 3.

(** [profileData && Array.isArray(profileData.interests)] *)
Definition interests_of (profileData : option Row) : option (list string) :=
  match profileData with
  | Some row =>
      match row !! "interests" with
      | Some (VStrs l) => Some l
      | _ => None
      end
  | None => None
  end.

(** Step 1 of the [try] block: read the interest tags of a logged-in user. *)
Definition readInterests (user : option User) : Async State (option (list string)) :=
  match logged_in_id user with
  | Some uid =>
      r ← await_row (profileQuery uid);
      match error r with
      | Some _ => console "Error fetching profile interests:"
      | None => mret tt
      end;;
      mret (interests_of (data r))
  | None => mret None
  end.

(** Step 2: the interest-filtered request; the result is the value of
    [fetchedEvents] after the step. *)
Definition fetchByInterests (today : string) (userInterests : option (list string))
  : Async State (list Row) :=
  match userInterests with
  | Some ((_ :: _) as tags) =>
      console "Fetching events based on interests:";;
      r ← await_rows (interestQuery today tags);
      throw_if r;;
      match data r with
      | Some ((_ :: _) as rows) => mret rows
      | _ => console "No events found matching interests.";; mret []
      end
  | _ => console "No user interests found or user not logged in.";; mret []
  end.

(** Step 3: the fallback request, sent when [fetchedEvents] is still empty. *)
Definition fetchFallback (today : string) (fetchedEvents : list Row)
  : Async State (list Row) :=
  match fetchedEvents with
  | [] =>
      console "Falling back to fetching latest upcoming events.";;
      r ← await_rows (fallbackQuery today);
      throw_if r;;
      mret (default [] (data r))
  | _ => mret fetchedEvents
  end.

(** The handler of the effect in [App].  [today] is
    [new Date().toISOString().split('T')[0]], read by the caller; the three
    numbered steps of the [try] block are the three definitions above. *)
Definition fetchFeaturedEvents (user : option User) (today : string) : Async State unit :=
  set_state (setLoadingFeaturedEvents true);;
  finally
    (try_catch
       (userInterests ← readInterests user;
        fetchedEvents ← fetchByInterests today userInterests;
        fetchedEvents ← fetchFallback today fetchedEvents;
        set_state (setFeaturedEvents fetchedEvents))
       (λ _,
          console "Error fetching featured events:";;
          set_state (setFeaturedEvents [])))
    (set_state (setLoadingFeaturedEvents false)).

(** What one feed computation is told by the backend [b]: the interest
    tags step 1 ends with, the response to the request of step 2 when one
    is sent, and the rows the two event requests carry. *)
Definition userInterests (b : Backend) (user : option User) : option (list string) :=
  match logged_in_id user with
  | Some uid => interests_of (data (fetch_row b (profileQuery uid)))
  | None => None
  end.

Definition interestResponse (b : Backend) (user : option User) (today : string)
    : option (Response (list Row)) :=
  match userInterests b user with
  | Some ((_ :: _) as tags) => Some (fetch_rows b (interestQuery today tags))
  | _ => None
  end.

Definition interestList (b : Backend) (user : option User) (today : string) : list Row :=
  match interestResponse b user today with
  | Some r => default [] (data r)
  | None => []
  end.

Definition interestError (b : Backend) (user : option User) (today : string)
    : option ErrorValue :=
  interestResponse b user today ≫= error.

Definition fallbackList (b : Backend) (today : string) : list Row :=
  default [] (data (fetch_rows b (fallbackQuery today))).

Definition fallbackError (b : Backend) (today : string) : option ErrorValue :=
  error (fetch_rows b (fallbackQuery today)).

(** The feed after one computation, started from [st]. *)
Definition selectFeaturedEvents (b : Backend) (user : option User) (today : string)
    (st : State) : list Row :=
  featuredEvents (ui (run b (fetchFeaturedEvents user today) (initial st)).2).

(** The reading of the failure rule under which every failed request,
    the profile request included, empties the feed. *)
Definition any_query_error_empties_feed (b : Backend) (user : option User)
    (today : string) (st : State) : Prop :=
  let w := (run b (fetchFeaturedEvents user today) (initial st)).2 in
  (∃ q, q ∈ calls w ∧ failed b q) → featuredEvents (ui w) = [].

End App.

(** ** pages/SearchPage.tsx *)
Module SearchPage.

Record State := mkState {
  events : list Row;
  clubs : list Row;
  announcements : list Row;
  loading : bool;
  error : option string
}.

(** The [useState] initial values. *)
Definition initialState : State := mkState [] [] [] true None.

Definition setEvents (v : list Row) (s : State) : State :=
  mkState v (clubs s) (announcements s) (loading s) (error s).
Definition setClubs (v : list Row) (s : State) : State :=
  mkState (events s) v (announcements s) (loading s) (error s).
Definition setAnnouncements (v : list Row) (s : State) : State :=
  mkState (events s) (clubs s) v (loading s) (error s).
Definition setLoading (v : bool) (s : State) : State :=
  mkState (events s) (clubs s) (announcements s) v (error s).
Definition setError (v : option string) (s : State) : State :=
  mkState (events s) (clubs s) (announcements s) (loading s) v.

(** The argument of [.or()] is the comma-separated pair of [ilike]
    conditions, kept here as the list the backend reads it as. *)
Definition eventsQuery (searchTerm : string) : Query :=
  from "events"
    |> select ["id"; "title"; "date"; "description"]
    |> or_ [FIlike "title" searchTerm; FIlike "description" searchTerm]
    |> limit 10.

Definition clubsQuery (searchTerm : string) : Query :=
  from "clubs"
    |> select ["id"; "name"; "description"]
    |> or_ [FIlike "name" searchTerm; FIlike "description" searchTerm]
    |> limit 10.

Definition announcementsQuery (searchTerm : string) : Query :=
  from "announcements"
    |> select ["id"; "title"; "content"; "created_at"]
    |> or_ [FIlike "title" searchTerm; FIlike "content" searchTerm]
    |> order "created_at" false
    |> limit 10.

(** [`%${query}%`] *)
Definition ilike_pattern (query : string) : string := "%" +:+ query +:+ "%".

(** [query] is [searchParams.get('q')]: a string or [null]. *)
Definition performSearch (query : option string) : Async State unit :=
  match query with
  | Some q =>
      if Js.truthy q then
        set_state (setLoading true);;
        set_state (setError None);;
        set_state (setEvents []);;
        set_state (setClubs []);;
        set_state (setAnnouncements []);;
        finally
          (try_catch
             (let searchTerm := ilike_pattern q in
              r ← await_rows (eventsQuery searchTerm);
              throw_if r;;
              set_state (setEvents (default [] (data r)));;
              r ← await_rows (clubsQuery searchTerm);
              throw_if r;;
              set_state (setClubs (default [] (data r)));;
              r ← await_rows (announcementsQuery searchTerm);
              throw_if r;;
              set_state (setAnnouncements (default [] (data r))))
             (λ err,
                console "Search error:";;
                set_state (setError (Some (error_text "Failed to perform search" err)))))
          (set_state (setLoading false))
      else set_state (setLoading false)
  | None => set_state (setLoading false)
  end.

(** What the component renders below the heading. *)
Inductive Results :=
| NoResultsFound
| Sections (events clubs announcements : list Row).

Record View := mkView {
  searching : bool;                (* the "Searching..." line *)
  error_line : option string;      (* the "Error: ..." line *)
  results : option Results         (* the results block *)
}.

(** A section is rendered only for a non-empty list, so an empty list in
    [Sections] stands for an absent section. *)
Definition render (s : State) : View :=
  mkView
    (loading s)
    (match error s with
     | Some e => if Js.truthy e then Some e else None
     | None => None
     end)
    (if negb (loading s) && negb (Js.truthy_opt (error s)) then
       Some (match events s, clubs s, announcements s with
             | [], [], [] => NoResultsFound
             | es, cs, ans => Sections es cs ans
             end)
     else None).

(** The state after one search, run alone from [st]. *)
Definition search (b : Backend) (query : option string) (st : State) : World State :=
  (run b (performSearch query) (initial st)).2.

(** None of the three requests for [query] fails. *)
Definition succeeds (b : Backend) (query : string) : Prop :=
  let t := ilike_pattern query in
  Supabase.error (fetch_rows b (eventsQuery t)) = None ∧
  Supabase.error (fetch_rows b (clubsQuery t)) = None ∧
  Supabase.error (fetch_rows b (announcementsQuery t)) = None.

(** The reading of the search contract under which the three category
    requests are sent whatever the others answer. *)
Definition sends_three_queries (b : Backend) (query : string) (st : State) : Prop :=
  length (calls (search b (Some query) st)) = 3.

End SearchPage.

(** ** components/EditAnnouncementModal.tsx *)
Module EditAnnouncementModal.

Record Announcement := mkAnnouncement {
  id : string;
  title : string;
  content : string;
  created_at : string;
  created_by : option string
}.

(** The component's own state, and the number of times it has called the
    [onClose] callback of its parent. *)
Record State := mkState {
  st_title : string;
  st_content : string;
  loading : bool;
  error : option string;
  onClose_calls : nat
}.

Definition setLoading (v : bool) (s : State) : State :=
  mkState (st_title s) (st_content s) v (error s) (onClose_calls s).
Definition setError (v : option string) (s : State) : State :=
  mkState (st_title s) (st_content s) (loading s) v (onClose_calls s).
Definition onClose (s : State) : State :=
  mkState (st_title s) (st_content s) (loading s) (error s) (S (onClose_calls s)).

(** [user && (user.id === announcement.created_by || user.is_admin)] *)
Definition may_edit (user : option User) (a : Announcement) : bool :=
  match user with
  | Some u => bool_decide (Some (user_id u) = created_by a) || is_admin u
  | None => false
  end.

Definition updateQuery (a : Announcement) (title content : string) : Query :=
  from "announcements"
    |> update [("title", VStr (Js.trim title)); ("content", VStr (Js.trim content))]
    |> eq_ "id" (id a).

(** [title] and [content] are the state values of the render the handler
    was created in. *)
Definition handleSubmit (user : option User) (announcement : option Announcement)
    (title content : string) : Async State unit :=
  match announcement with
  | None => set_state (setError (Some "No announcement selected for editing."))
  | Some a =>
      if negb (may_edit user a) then
        set_state (setError (Some "You don't have permission to edit this announcement."))
      else if negb (Js.truthy (Js.trim title)) || negb (Js.truthy (Js.trim content)) then
        set_state (setError (Some "Title and content cannot be empty."))
      else
        set_state (setLoading true);;
        set_state (setError None);;
        finally
          (try_catch
             (r ← await_rows (updateQuery a title content);
              throw_if r;;
              set_state onClose)
             (λ err,
                console "Error updating announcement:";;
                set_state (setError (Some (error_text "Failed to update announcement." err)))))
          (set_state (setLoading false))
  end.

End EditAnnouncementModal.

(** ** pages/Clubs.tsx *)
Module Clubs.

Record State := mkState {
  clubs : list Row;
  memberships : gset string;
  isCreateModalOpen : bool;
  isEditModalOpen : bool;
  editingClub : option Row;
  loading : bool;
  error : option string;
  actionLoadingClubId : option string
}.

Definition initialState : State :=
  mkState [] ∅ false false None true None None.

Definition setClubs (v : list Row) (s : State) : State :=
  mkState v (memberships s) (isCreateModalOpen s) (isEditModalOpen s)
          (editingClub s) (loading s) (error s) (actionLoadingClubId s).
Definition setMemberships (v : gset string) (s : State) : State :=
  mkState (clubs s) v (isCreateModalOpen s) (isEditModalOpen s)
          (editingClub s) (loading s) (error s) (actionLoadingClubId s).
Definition setLoading (v : bool) (s : State) : State :=
  mkState (clubs s) (memberships s) (isCreateModalOpen s) (isEditModalOpen s)
          (editingClub s) v (error s) (actionLoadingClubId s).
Definition setError (v : option string) (s : State) : State :=
  mkState (clubs s) (memberships s) (isCreateModalOpen s) (isEditModalOpen s)
          (editingClub s) (loading s) v (actionLoadingClubId s).

Definition clubsQuery : Query :=
  from "clubs" |> select ["*"; "created_by"].

Definition membershipsQuery (uid : string) : Query :=
  from "club_memberships" |> select ["club_id"] |> eq_ "user_id" uid.

(** [membershipData?.map(m => m.club_id) || []], the ids being strings. *)
Definition club_ids (membershipData : option (list Row)) : list string :=
  omap (λ m : Row, match m !! "club_id" with
                   | Some (VStr c) => Some c
                   | _ => None
                   end)
       (default [] membershipData).

(** [closure_clubs] is the [clubs] value the memoised callback closed
    over. *)
Definition fetchData (user : option User) (closure_clubs : list Row) : Async State unit :=
  match closure_clubs with
  | [] => set_state (setLoading true)
  | _ => mret tt
  end;;
  finally
    (try_catch
       (r ← await_rows clubsQuery;
        throw_if r;;
        userMemberships ←
          match logged_in_id user with
          | Some uid =>
              m ← await_rows (membershipsQuery uid);
              throw_if m;;
              mret (list_to_set (C := gset string) (club_ids (data m)))
          | None => mret (∅ : gset string)
          end;
        set_state (setClubs (default [] (data r)));;
        set_state (setMemberships userMemberships);;
        set_state (setError None))
       (λ err, set_state (setError (Some (error_text "Failed to load data" err)))))
    (set_state (setLoading false)).

End Clubs.

(** ** A reference backend

    The hosted backend behind the query client is not part of the
    repository; the module below stands for it. *)
Module Postgrest.

(** Modelled from the spec: the pattern-match filter of the query
    interface, "case-insensitive substring containment" behind wildcards.
    [%] matches any run of characters, [_] any one character, letters
    match without regard to case. *)
Fixpoint like (pattern : string) : string → bool :=
  match pattern with
  | EmptyString => λ s, match s with EmptyString => true | _ => false end
  | String c pattern' =>
      if Ascii.eqb c "%" then
        fix skip (s : string) : bool :=
          like pattern' s ||
          match s with
          | EmptyString => false
          | String _ s' => skip s'
          end
      else if Ascii.eqb c "_" then
        λ s, match s with
             | EmptyString => false
             | String _ s' => like pattern' s'
             end
      else
        λ s, match s with
             | EmptyString => false
             | String d s' => Ascii.eqb (Js.lower c) (Js.lower d) && like pattern' s'
             end
  end.

Definition ilike (pattern s : string) : bool := like pattern s.

(** The text of a column, when the row has one. *)
Definition text (r : Row) (column : string) : option string :=
  match r !! column with
  | Some (VStr s) => Some s
  | _ => None
  end.

(** Modelled from the spec: the filters of [queryRows], "equality and
    case-insensitive substring pattern match, combinable with OR", with the
    comparison and membership filters the handlers also use.  A row without
    text in the column satisfies none of them. *)
Fixpoint holds (r : Row) (f : Filter) : bool :=
  match f with
  | FEq c v => match text r c with Some s => String.eqb s v | None => false end
  | FGte c v => match text r c with Some s => String.leb v s | None => false end
  | FIn c vs => match text r c with Some s => bool_decide (s ∈ vs) | None => false end
  | FIlike c p => match text r c with Some s => ilike p s | None => false end
  | FOr fs => existsb (holds r) fs
  end.

Definition satisfies (q : Query) (r : Row) : bool := forallb (holds r) (filters q).

(** Ordering keys: text in code-unit order, rows without a text key last
    when ascending and first when descending. *)
Definition key_leb (k1 k2 : option string) : bool :=
  match k1, k2 with
  | Some a, Some b => String.leb a b
  | _, None => true
  | None, Some _ => false
  end.

Definition row_leb (column : string) (ascending : bool) (r1 r2 : Row) : bool :=
  if ascending then key_leb (text r1 column) (text r2 column)
  else key_leb (text r2 column) (text r1 column).

Definition row_le (column : string) (ascending : bool) (r1 r2 : Row) : Prop :=
  row_leb column ascending r1 r2 = true.

#[global] Instance row_le_dec column ascending : RelDecision (row_le column ascending).
Proof. intros r1 r2. unfold row_le. apply _. Defined.

Definition ordered (q : Query) (rows : list Row) : list Row :=
  match ordering q with
  | Some (column, ascending) => merge_sort (row_le column ascending) rows
  | None => rows
  end.

Definition capped (q : Query) (rows : list Row) : list Row :=
  match row_limit q with
  | Some n => take n rows
  | None => rows
  end.

Definition project (columns : list string) (r : Row) : Row :=
  if bool_decide ("*" ∈ columns) then r
  else filter (λ kv : string * Value, kv.1 ∈ columns) r.

Abbreviation Database := (gmap string (list Row)).

Definition rows_of (db : Database) (t : string) : list Row := default [] (db !! t).

(** Modelled from the spec: [queryRows(table, filters, ordering?, limit?)]
    returns the rows of the table that satisfy every filter, in the order
    asked for, at most [limit] of them, each with the selected columns. *)
Definition select_rows (db : Database) (q : Query) (columns : list string) : list Row :=
  project columns <$> capped q (ordered q (filter (λ r, satisfies q r = true) (rows_of db (table q)))).

Definition assign (values : list (string * Value)) (r : Row) : Row :=
  foldl (λ acc kv, <[kv.1 := kv.2]> acc) r values.

(** Modelled from the spec: [updateRow].  The rows that satisfy the
    filters get the new values, the others stay as they are. *)
Definition update_rows (q : Query) (values : list (string * Value)) (rows : list Row) : list Row :=
  (λ r, if satisfies q r then assign values r else r) <$> rows.

(** A backend is a database and an oracle that says which requests fail,
    and with what error. *)
Record Server := mkServer {
  db : Database;
  outage : Query → option ErrorValue
}.

(** Modelled from the spec: the answer to a list request is
    "list of row | Error": the rows for a select, [null] data for an
    update that asks for no rows back. *)
Definition rows_response (srv : Server) (q : Query) : Response (list Row) :=
  match outage srv q with
  | Some e => mkResponse None (Some e)
  | None =>
      match verb q with
      | Select columns => mkResponse (Some (select_rows (db srv) q columns)) None
      | Update _ => mkResponse None None
      end
  end.

(** Modelled from the spec: a [.single()] request, which fails unless
    exactly one row is found. *)
Definition row_response (srv : Server) (q : Query) : Response Row :=
  match outage srv q with
  | Some e => mkResponse None (Some e)
  | None =>
      match verb q with
      | Select columns =>
          match select_rows (db srv) q columns with
          | [r] => mkResponse (Some r) None
          | _ => mkResponse None
                   (Some (mkError "JSON object requested, multiple (or no) rows returned" false))
          end
      | Update _ => mkResponse None None
      end
  end.

Definition serve (srv : Server) : Backend :=
  mkBackend (rows_response srv) (row_response srv).

(** The database after the request has been served. *)
Definition commit (srv : Server) (q : Query) : Database :=
  match outage srv q, verb q with
  | None, Update values =>
      <[table q := update_rows q values (rows_of (db srv) (table q))]> (db srv)
  | _, _ => db srv
  end.

Definition no_outage : Query → option ErrorValue := λ _, None.

End Postgrest.

(** ** The event loop

    Several handlers of one component in flight at once.  A handler runs
    without interruption up to its next [await]; there it is parked until
    its response arrives, and other handlers run in between. *)
Module EventLoop.
Section Loop.
Context {St : Type}.

(** A handler parked at an [await]. *)
Inductive Parked :=
| ParkedRows (q : Query) (k : Response (list Row) → Async St unit)
| ParkedRow (q : Query) (k : Response Row → Async St unit).

(** Run a handler up to its next [await]; [None] when it has settled. *)
Fixpoint advance (m : Async St unit) (w : World St) : World St * option Parked :=
  match m with
  | Ret _ => (w, None)
  | Throw _ => (w, None)
  | FetchRows q k =>
      (mkWorld (ui w) (calls w ++ [q]) (console_lines w), Some (ParkedRows q k))
  | FetchRow q k =>
      (mkWorld (ui w) (calls w ++ [q]) (console_lines w), Some (ParkedRow q k))
  | SetState g k => advance k (mkWorld (g (ui w)) (calls w) (console_lines w))
  | Console l k => advance k (mkWorld (ui w) (calls w) (console_lines w ++ [l]))
  end.

(** The handler continues with the backend's answer to its request. *)
Definition resume (b : Backend) (p : Parked) : Async St unit :=
  match p with
  | ParkedRows q k => k (fetch_rows b q)
  | ParkedRow q k => k (fetch_row b q)
  end.

(** Slot [i] of [inflight] is the [i]-th handler started: parked, or [None]
    once settled. *)
Record Loop := mkLoop {
  world : World St;
  inflight : list (option Parked)
}.

Definition boot (st : St) : Loop := mkLoop (initial st) [].

Definition start (m : Async St unit) (l : Loop) : Loop :=
  let '(w, p) := advance m (world l) in
  mkLoop w (inflight l ++ [p]).

(** The response for handler [i] arrives; nothing happens when handler [i] is
    not waiting for one. *)
Definition deliver (b : Backend) (i : nat) (l : Loop) : Loop :=
  match inflight l !! i with
  | Some (Some p) =>
      let '(w, p') := advance (resume b p) (world l) in
      mkLoop w (<[i := p']> (inflight l))
  | _ => l
  end.

Definition idle (l : Loop) : Prop := Forall (λ t, t = None) (inflight l).

(** The number of responses a handler waits for when every request is
    answered by [b]. *)
Fixpoint awaits (b : Backend) (m : Async St unit) : nat :=
  match m with
  | Ret _ | Throw _ => 0
  | FetchRows q k => S (awaits b (k (fetch_rows b q)))
  | FetchRow q k => S (awaits b (k (fetch_row b q)))
  | SetState _ k | Console _ k => awaits b k
  end.

End Loop.
Arguments Parked : clear implicits.
Arguments Loop : clear implicits.
End EventLoop.

(** ** The search page under the event loop

    The effect of [SearchPage] starts [performSearch] each time the query
    of the URL changes and never cancels a search already in flight. *)
Module SearchSession.
Import SearchPage EventLoop.

Inductive Event :=
| QueryChanged (query : option string)
| ResponseArrives (slot : nat).

Definition step (b : Backend) (l : Loop State) (e : Event) : Loop State :=
  match e with
  | QueryChanged query => start (performSearch query) l
  | ResponseArrives i => deliver b i l
  end.

Definition exec (b : Backend) (schedule : list Event) (l : Loop State) : Loop State :=
  foldl (step b) l schedule.

(** The query of the URL after a schedule. *)
Definition latest_query (schedule : list Event) : option string :=
  last (omap (λ e, match e with
                   | QueryChanged query => Some query
                   | ResponseArrives _ => None
                   end) schedule) ≫= id.

(** The state a search for [query] alone leaves in a freshly mounted
    component. *)
Definition fresh_result (b : Backend) (query : option string) : State :=
  ui (search b query initialState).

(** The ordering guarantee: once every search has settled, the page holds
    the result of the latest query. *)
Definition reflects_latest_query (b : Backend) (schedule : list Event) : Prop :=
  let l := exec b schedule (boot initialState) in
  idle l → ui (world l) = fresh_result b (latest_query schedule).

End SearchSession.


(** ** Sample data *)
Module Sample.

Definition event (id title date category : string) : Row :=
  {[ "id" := VStr id; "title" := VStr title; "date" := VStr date;
     "category" := VStr category ]}.

Definition profile (id : string) (interests : list string) : Row :=
  {[ "id" := VStr id; "interests" := VStrs interests ]}.

Definition today : string := "2026-03-14".
Definition tomorrow : string := "2026-03-15".

Definition alice : User := mkUser "u-alice" false.

(** A user interested in music, and a sports event tomorrow as the only
    upcoming event. *)
Definition campus : Postgrest.Database :=
  {[ "profiles" := [profile "u-alice" ["music"]];
     "events" := [event "e-run" "Fun run" tomorrow "sports";
                  event "e-gig" "Winter gig" "2026-01-20" "music"] ]}.

Definition campus_server : Postgrest.Server :=
  Postgrest.mkServer campus Postgrest.no_outage.

(** The same database behind a backend that fails every request to one
    table. *)
Definition table_down (t : string) (q : Query) : option ErrorValue :=
  if String.eqb (table q) t then Some (mkError "connection lost" false) else None.

Definition campus_without (t : string) : Postgrest.Server :=
  Postgrest.mkServer campus (table_down t).

(** Two searches in flight at once: the responses of the newer one
    (slot 1) arrive before those of the older one (slot 0). *)
Definition stale_schedule : list SearchSession.Event :=
  [SearchSession.QueryChanged (Some "run"); SearchSession.QueryChanged (Some "gig");
   SearchSession.ResponseArrives 1; SearchSession.ResponseArrives 1;
   SearchSession.ResponseArrives 1;
   SearchSession.ResponseArrives 0; SearchSession.ResponseArrives 0;
   SearchSession.ResponseArrives 0].

(** An announcement written by alice, and the edit form holding a new
    title with blanks around it. *)
Definition note : EditAnnouncementModal.Announcement :=
  EditAnnouncementModal.mkAnnouncement
    "a-1" "Exam week" "Library open late" "2026-03-01" (Some "u-alice").

Definition edit_form : EditAnnouncementModal.State :=
  EditAnnouncementModal.mkState "  Exam weeks " "Library open until midnight" false None 0.

(** The clubs page showing one club the user is a member of. *)
Definition chess_club : Row :=
  {[ "id" := VStr "c-chess"; "name" := VStr "Chess club";
     "description" := VStr "Weekly games" ]}.

Definition clubs_page : Clubs.State :=
  Clubs.mkState [chess_club] {[ "c-chess" ]} false false None false None None.

End Sample.

(** ** Handlers that also write, ask and navigate

    The action handlers of the pages insert and delete rows, open alert and
    confirm dialogs and navigate.  Their bodies are trees like [Async],
    over a family of effects [E]: [E X] is an effect that hands a value of
    type [X] back to the handler. *)
Module Action.
Section Tree.
Context {St : Type} {E : Type → Type}.

Inductive t (A : Type) : Type :=
| Done (a : A)
| Raise (e : ErrorValue)
| Do {X : Type} (effect : E X) (k : X → t A)
| Put (f : St → St) (k : t A).
Arguments Done {A} _.
Arguments Raise {A} _.
Arguments Do {A X} _ _.
Arguments Put {A} _ _.

Fixpoint bind {A B} (m : t A) (f : A → t B) : t B :=
  match m with
  | Done a => f a
  | Raise e => Raise e
  | Do effect k => Do effect (λ x, bind (k x) f)
  | Put g k => Put g (bind k f)
  end.

(** [try { m } catch (err) { h err }] *)
Fixpoint try_catch {A} (m : t A) (h : ErrorValue → t A) : t A :=
  match m with
  | Done a => Done a
  | Raise e => h e
  | Do effect k => Do effect (λ x, try_catch (k x) h)
  | Put g k => Put g (try_catch k h)
  end.

(** [try { m } finally { fin }] *)
Fixpoint finally {A} (m : t A) (fin : t unit) : t A :=
  match m with
  | Done a => bind fin (λ _, Done a)
  | Raise e => bind fin (λ _, Raise e)
  | Do effect k => Do effect (λ x, finally (k x) fin)
  | Put g k => Put g (finally k fin)
  end.

Definition perform_effect {X} (effect : E X) : t X := Do effect Done.
Definition put (f : St → St) : t unit := Put f (Done tt).

(** Running a handler alone: [handle] answers each effect at once and
    keeps its own record in [T]. *)
Fixpoint run {T : Type} (handle : ∀ X, E X → T → X * T) {A} (m : t A) (st : St) (env : T)
    : Outcome A * St * T :=
  match m with
  | Done a => (Fulfilled a, st, env)
  | Raise e => (Rejected e, st, env)
  | Do effect k => let '(x, env') := handle _ effect env in run handle (k x) st env'
  | Put g k => run handle k (g st) env
  end.

End Tree.
Arguments t : clear implicits.
Arguments Done {St E A} _.
Arguments Raise {St E A} _.
Arguments Do {St E A X} _ _.
Arguments Put {St E A} _ _.
End Action.

#[global] Instance Action_ret St E : MRet (Action.t St E) := λ A, Action.Done.
#[global] Instance Action_bind St E : MBind (Action.t St E) := λ A B f m, Action.bind m f.

(** ** The effects of the pages *)
Module Page.

Inductive Mutation :=
| Insert (table : string) (values : list (string * Value))   (* .from(t).insert(values) *)
| Delete (table : string) (filters : list Filter).           (* .from(t).delete().eq(..) *)

Inductive Effect : Type → Type :=
| Rows (q : Query) : Effect (Response (list Row))         (* an awaited list request *)
| OneRow (q : Query) : Effect (Response Row)              (* an awaited .single() request *)
| Write (m : Mutation) : Effect (Response (list Row))     (* an awaited insert or delete *)
| Log (line : string) : Effect unit                       (* console.error *)
| Alert (message : string) : Effect unit                  (* alert(message) *)
| Confirm (message : string) : Effect bool                (* window.confirm(message) *)
| Navigate (path : string) : Effect unit.                 (* navigate(path) *)

Abbreviation Handler St := (Action.t St Effect).

Definition rows {St} (q : Query) : Handler St (Response (list Row)) :=
  Action.perform_effect (Rows q).
Definition write {St} (m : Mutation) : Handler St (Response (list Row)) :=
  Action.perform_effect (Write m).
Definition log {St} (line : string) : Handler St unit := Action.perform_effect (Log line).
Definition alert {St} (message : string) : Handler St unit :=
  Action.perform_effect (Alert message).
Definition confirm {St} (message : string) : Handler St bool :=
  Action.perform_effect (Confirm message).
Definition navigate {St} (path : string) : Handler St unit :=
  Action.perform_effect (Navigate path).

(** [if (error) throw error;] *)
Definition raise_if {St T} (r : Response T) : Handler St unit :=
  match Supabase.error r with
  | Some e => Action.Raise e
  | None => Action.Done tt
  end.

(** A handler written as an [Async] tree, called from an action handler
    ([await fetchData()]). *)
Fixpoint call {St A} (m : Async St A) : Handler St A :=
  match m with
  | Ret a => Action.Done a
  | Throw e => Action.Raise e
  | FetchRows q k => Action.Do (Rows q) (λ r, call (k r))
  | FetchRow q k => Action.Do (OneRow q) (λ r, call (k r))
  | SetState f k => Action.Put f (call k)
  | Console l k => Action.Do (Log l) (λ _, call k)
  end.

(** What can be seen of a handler from outside, in order. *)
Inductive Step :=
| Sent (q : Query)
| Wrote (m : Mutation)
| Logged (line : string)
| Alerted (message : string)
| Asked (message : string)
| Went (path : string).

(** The surroundings of a page: a backend in some state [S] that answers
    reads and is changed by writes, and a user who answers the confirm
    dialogs. *)
Record Service (S : Type) := mkService {
  reads : S → Backend;
  writes : Mutation → S → Response (list Row) * S;
  answers : string → bool
}.
Arguments mkService {S} _ _ _.
Arguments reads {S} _ _.
Arguments writes {S} _ _ _.
Arguments answers {S} _ _.

Record Session (S : Type) := mkSession {
  server : S;
  steps : list Step
}.
Arguments mkSession {S} _ _.
Arguments server {S} _.
Arguments steps {S} _.

Definition handle {S} (svc : Service S) (X : Type) (effect : Effect X) (env : Session S)
    : X * Session S :=
  match effect in Effect X return X * Session S with
  | Rows q => (fetch_rows (reads svc (server env)) q,
               mkSession (server env) (steps env ++ [Sent q]))
  | OneRow q => (fetch_row (reads svc (server env)) q,
                 mkSession (server env) (steps env ++ [Sent q]))
  | Write m => let '(r, s') := writes svc m (server env) in
               (r, mkSession s' (steps env ++ [Wrote m]))
  | Log l => (tt, mkSession (server env) (steps env ++ [Logged l]))
  | Alert a => (tt, mkSession (server env) (steps env ++ [Alerted a]))
  | Confirm c => (answers svc c, mkSession (server env) (steps env ++ [Asked c]))
  | Navigate p => (tt, mkSession (server env) (steps env ++ [Went p]))
  end.

Definition perform {S St A} (svc : Service S) (m : Handler St A) (st : St) (s : S)
    : Outcome A * St * Session S :=
  Action.run (handle svc) m st (mkSession s []).

End Page.

(** ** Handlers that write different parts of the state *)
Module Footprint.
Section Footprint.
Context {St : Type}.
Import EventLoop.

(** Every state update in the handler, on whatever responses, is one of
    the updates [G]. *)
Inductive Writes (G : (St → St) → Prop) : Async St unit → Prop :=
| Writes_ret a : Writes G (Ret a)
| Writes_throw e : Writes G (Throw e)
| Writes_rows q k : (∀ r, Writes G (k r)) → Writes G (FetchRows q k)
| Writes_row q k : (∀ r, Writes G (k r)) → Writes G (FetchRow q k)
| Writes_set f k : G f → Writes G k → Writes G (SetState f k)
| Writes_console l k : Writes G k → Writes G (Console l k).

(** What is left of a handler: its continuation on the response it waits
    for, or nothing once it has settled. *)
Definition rest (b : Backend) (p : option (Parked St)) : Async St unit :=
  match p with
  | Some p => resume b p
  | None => Ret tt
  end.

(** For a loop with two handlers: the state reached when what is left of
    the first runs to its end, and then what is left of the second. *)
Definition ending (b : Backend) (l : Loop St) : option St :=
  match inflight l with
  | [ta; tf] => Some (ui (run b (rest b tf) (run b (rest b ta) (world l)).2).2)
  | _ => None
  end.

Definition footprints (b : Backend) (GA GF : (St → St) → Prop) (l : Loop St) : Prop :=
  match inflight l with
  | [ta; tf] => Writes GA (rest b ta) ∧ Writes GF (rest b tf)
  | _ => False
  end.

End Footprint.
End Footprint.

(** ** App.tsx: the rest of the home page *)
Module Home.
Import App.

Definition setAnnouncements (v : list Row) (s : State) : State :=
  mkState v (loadingAnnouncements s) (featuredEvents s)
          (loadingFeaturedEvents s) (searchTerm s).
Definition setLoadingAnnouncements (v : bool) (s : State) : State :=
  mkState (announcements s) v (featuredEvents s)
          (loadingFeaturedEvents s) (searchTerm s).

Definition announcementsQuery : Query :=
  from "announcements" |> select ["*"] |> order "created_at" false |> limit 3.

(** The [catch] clause only logs: the announcements stay as they are. *)
Definition fetchAnnouncements : Async State unit :=
  set_state (setLoadingAnnouncements true);;
  finally
    (try_catch
       (r ← await_rows announcementsQuery;
        throw_if r;;
        set_state (setAnnouncements (default [] (data r))))
       (λ _, console "Error fetching announcements:"))
    (set_state (setLoadingAnnouncements false)).

(** The effect that runs on mount and when [user?.id] changes: both
    fetches are started, neither is awaited. *)
Definition mount (user : option User) (today : string)
    (l : EventLoop.Loop State) : EventLoop.Loop State :=
  EventLoop.start (fetchFeaturedEvents user today) (EventLoop.start fetchAnnouncements l).

(** Responses arrive for the handlers in the slots listed, in that order. *)
Definition arrivals (b : Backend) (slots : list nat)
    (l : EventLoop.Loop State) : EventLoop.Loop State :=
  foldl (λ l i, EventLoop.deliver b i l) l slots.

(** The state updates of the two fetches. *)
Definition announcement_write (f : State → State) : Prop :=
  (∃ v, f = setAnnouncements v) ∨ (∃ v, f = setLoadingAnnouncements v).
Definition feed_write (f : State → State) : Prop :=
  (∃ v, f = setFeaturedEvents v) ∨ (∃ v, f = setLoadingFeaturedEvents v).

(** A section of the home page: the loading line, the cards, or the line
    that says there is nothing to show. *)
Inductive Block :=
| Loading
| Cards (rows : list Row)
| Nothing.

Definition block (loading : bool) (rows : list Row) : Block :=
  if loading then Loading
  else match rows with
       | [] => Nothing
       | _ => Cards rows
       end.

Definition announcementsBlock (s : State) : Block :=
  block (loadingAnnouncements s) (announcements s).

End Home.

(** ** components/EditAnnouncementModal.tsx: the rest of the form *)
Module EditForm.
Import EditAnnouncementModal.

Definition setTitle (v : string) (s : State) : State :=
  mkState v (st_content s) (loading s) (error s) (onClose_calls s).
Definition setContent (v : string) (s : State) : State :=
  mkState (st_title s) v (loading s) (error s) (onClose_calls s).

(** The effect on [announcement]: fill the form from the announcement, or
    empty it when there is none. *)
Definition prefill (announcement : option Announcement) (s : State) : State :=
  match announcement with
  | Some a => setContent (content a) (setTitle (title a) s)
  | None => setContent "" (setTitle "" s)
  end.

(** The form is submitted as the render shows it: the handler reads the
    title and content of the state it was created in. *)
Definition submit (b : Backend) (user : option User) (announcement : option Announcement)
    (s : State) : Outcome unit * World State :=
  run b (handleSubmit user announcement (st_title s) (st_content s)) (initial s).

End EditForm.

(** ** pages/Clubs.tsx: the rest of the page *)
Module ClubsPage.
Import Clubs Page.

Definition setActionLoadingClubId (v : option string) (s : State) : State :=
  mkState (clubs s) (memberships s) (isCreateModalOpen s) (isEditModalOpen s)
          (editingClub s) (loading s) (error s) v.

(** [memberships.has(club.id)] *)
Definition is_member (memberships : gset string) (club : Row) : bool :=
  match club !! "id" with
  | Some (VStr i) => bool_decide (i ∈ memberships)
  | _ => false
  end.

(** [clubs.map(club => ({ ...club, is_member: memberships.has(club.id) }))] *)
Definition clubsWithMembership (s : State) : list Row :=
  (λ club : Row, <["is_member" := VBool (is_member (memberships s) club)]> club) <$> clubs s.

Definition joinRequest (clubId : string) (u : User) : Mutation :=
  Insert "club_memberships" [("club_id", VStr clubId); ("user_id", VStr (user_id u))].

Definition leaveRequest (clubId : string) (u : User) : Mutation :=
  Delete "club_memberships" [FEq "club_id" clubId; FEq "user_id" (user_id u)].

Definition deleteRequest (clubId : string) : Mutation :=
  Delete "clubs" [FEq "id" clubId].

Definition handleJoin (user : option User) (clubId : string) : Handler State unit :=
  match user with
  | None => alert "Please sign in to join clubs."
  | Some u =>
      Action.put (setActionLoadingClubId (Some clubId));;
      Action.finally
        (Action.try_catch
           (r ← write (joinRequest clubId u);
            raise_if r;;
            Action.put (λ s, setMemberships ({[ clubId ]} ∪ memberships s) s))
           (λ err,
              log "Error joining club:";;
              alert (error_text "Failed to join club" err)))
        (Action.put (setActionLoadingClubId None))
  end.

Definition handleLeave (user : option User) (clubId : string) : Handler State unit :=
  match user with
  | None => mret tt
  | Some u =>
      Action.put (setActionLoadingClubId (Some clubId));;
      Action.finally
        (Action.try_catch
           (r ← write (leaveRequest clubId u);
            raise_if r;;
            Action.put (λ s, setMemberships (memberships s ∖ {[ clubId ]}) s))
           (λ err,
              log "Error leaving club:";;
              alert (error_text "Failed to leave club" err)))
        (Action.put (setActionLoadingClubId None))
  end.

Definition confirm_delete : string :=
  "Are you sure you want to delete this club? This action cannot be undone.".

(** [closure_clubs] is the [clubs] value the memoised [fetchData] closed
    over; [fetchData] itself was memoised under the same [user?.id]. *)
Definition handleDeleteClub (user : option User) (closure_clubs : list Row)
    (clubId : string) : Handler State unit :=
  match user with
  | None => mret tt
  | Some _ =>
      ok ← confirm confirm_delete;
      if negb ok then mret tt
      else
        Action.put (setActionLoadingClubId (Some clubId));;
        Action.finally
          (Action.try_catch
             (r ← write (deleteRequest clubId);
              raise_if r;;
              call (fetchData user closure_clubs))
             (λ err,
                log "Error deleting club:";;
                alert (error_text "Failed to delete club" err)))
          (Action.put (setActionLoadingClubId None))
  end.

(** What the page renders: the loading line only while nothing is held,
    the error line whenever an error text is held, the directory
    otherwise. *)
Inductive View :=
| LoadingClubs
| ErrorLine (text : string)
| Directory (cards : list Row).

Definition render (s : State) : View :=
  if loading s && bool_decide (clubs s = []) then LoadingClubs
  else match error s with
       | Some e => if Js.truthy e then ErrorLine e else Directory (clubsWithMembership s)
       | None => Directory (clubsWithMembership s)
       end.

(** The buttons of a card. *)
Inductive MemberButton := NoButton | JoinButton | LeaveButton.

Definition memberButton (user : option User) (card : Row) : MemberButton :=
  match user with
  | None => NoButton
  | Some _ =>
      match card !! "is_member" with
      | Some (VBool true) => LeaveButton
      | _ => JoinButton
      end
  end.

End ClubsPage.

(** ** The reference backend, with writes

    Modelled from the spec: [insertRow] and [deleteRow] of the query
    interface.  An insert appends the row to its table, a delete removes
    the rows that satisfy every filter; a write the [refused] oracle names
    fails and changes nothing. *)
Module PostgrestWrites.
Import Page.

Record Server := mkServer {
  store : Postgrest.Server;
  refused : Mutation → option ErrorValue
}.

(** Modelled from the spec: the table contents after a write. *)
Definition apply (m : Mutation) (db : Postgrest.Database) : Postgrest.Database :=
  match m with
  | Insert t values =>
      <[t := Postgrest.rows_of db t ++ [list_to_map values]]> db
  | Delete t fs =>
      <[t := filter (λ r, forallb (Postgrest.holds r) fs = false) (Postgrest.rows_of db t)]> db
  end.

Definition commit (m : Mutation) (srv : Server) : Response (list Row) * Server :=
  match refused srv m with
  | Some e => (mkResponse None (Some e), srv)
  | None =>
      (mkResponse None None,
       mkServer (Postgrest.mkServer (apply m (Postgrest.db (store srv)))
                                    (Postgrest.outage (store srv)))
                (refused srv))
  end.

Definition service (answers : string → bool) : Service Server :=
  mkService (λ srv, Postgrest.serve (store srv)) commit answers.

Definition nothing_refused : Mutation → option ErrorValue := λ _, None.

End PostgrestWrites.

(** ** The membership set and the memberships table *)
Module ClubsSync.
Import Clubs.

(** The club ids a refetch would load for [u] from the database [db]. *)
Definition stored_memberships (db : Postgrest.Database) (u : User) : gset string :=
  list_to_set
    (club_ids (Some (Postgrest.select_rows db (membershipsQuery (user_id u)) ["club_id"]))).

(** The page shows the memberships the table holds. *)
Definition synced (srv : PostgrestWrites.Server) (u : User) (st : State) : Prop :=
  memberships st = stored_memberships (Postgrest.db (PostgrestWrites.store srv)) u.

End ClubsSync.

(** ** More sample data *)
Module Demo.

Definition announcement (id title content created_at : string) : Row :=
  {[ "id" := VStr id; "title" := VStr title; "content" := VStr content;
     "created_at" := VStr created_at ]}.

Definition club (id name created_by : string) : Row :=
  {[ "id" := VStr id; "name" := VStr name; "created_by" := VStr created_by ]}.

Definition membership (club_id user_id : string) : Row :=
  {[ "club_id" := VStr club_id; "user_id" := VStr user_id ]}.

Definition board : Postgrest.Database :=
  {[ "announcements" :=
       [announcement "a-1" "Exam week" "Library open late" "2026-03-01T09:00:00";
        announcement "a-2" "Spring fair" "Stalls on the lawn" "2026-03-10T12:00:00";
        announcement "a-3" "Car park closed" "Use the north gate" "2026-02-20T08:00:00";
        announcement "a-4" "New cafe" "Opens on Monday" "2026-03-12T10:30:00"];
     "clubs" := [club "c-chess" "Chess club" "u-bob"; club "c-film" "Film club" "u-alice"];
     "club_memberships" := [membership "c-chess" "u-alice"; membership "c-chess" "u-bob"];
     "profiles" := [Sample.profile "u-alice" ["music"]];
     "events" := [Sample.event "e-run" "Fun run" Sample.tomorrow "sports"] ]}.

Definition server : Postgrest.Server := Postgrest.mkServer board Postgrest.no_outage.

Definition site : PostgrestWrites.Server :=
  PostgrestWrites.mkServer server PostgrestWrites.nothing_refused.

(** The same site refusing every write to one table. *)
Definition refuse_table (t : string) (m : Page.Mutation) : option ErrorValue :=
  match m with
  | Page.Insert t' _ | Page.Delete t' _ =>
      if String.eqb t' t then Some (mkError "permission denied" false) else None
  end.

Definition locked_site (t : string) : PostgrestWrites.Server :=
  PostgrestWrites.mkServer server (refuse_table t).

Definition yes : string → bool := λ _, true.
Definition no : string → bool := λ _, false.

(** The clubs page as alice sees it after a fetch. *)
Definition alice_page : Clubs.State :=
  Clubs.mkState [club "c-chess" "Chess club" "u-bob"; club "c-film" "Film club" "u-alice"]
                {[ "c-chess" ]} false false None false None None.

End Demo.

(** ** The URL of the search page

    The search box of the home page and the search page meet in a URL:
    the box writes the term into the query string with
    [encodeURIComponent], the router cuts the path at [?] and [#], and the
    page reads the term back with [URLSearchParams.get].  These functions
    belong to the platform; they are modelled here for strings of code
    units below 256. *)
Module Url.

(** The characters [encodeURIComponent] leaves as they are: letters,
    digits and [- _ . ! ~ * ' ( )]. *)
Definition unreserved (c : ascii) : bool :=
  let n := N_of_ascii c in
  ((65 <=? n) && (n <=? 90) || (97 <=? n) && (n <=? 122) || (48 <=? n) && (n <=? 57)
   || existsb (N.eqb n) [45; 95; 46; 33; 126; 42; 39; 40; 41])%N.

Definition hex_digit (n : N) : ascii :=
  if (n <? 10)%N then ascii_of_N (48 + n) else ascii_of_N (55 + n).

(** [%XX], with upper-case digits. *)
Definition percent (byte : ascii) : string :=
  let n := N_of_ascii byte in
  String "%" (String (hex_digit (n / 16)) (String (hex_digit (n mod 16)) "")).

(** The UTF-8 bytes of a code unit below 256: itself below 128, two bytes
    from there on. *)
Definition utf8 (c : ascii) : list ascii :=
  let n := N_of_ascii c in
  if (n <? 128)%N then [c]
  else [ascii_of_N (192 + n / 64); ascii_of_N (128 + n mod 64)].

Definition encode_unit (c : ascii) : string :=
  if unreserved c then String c "" else String.concat "" (percent <$> utf8 c).

Fixpoint encodeURIComponent (s : string) : string :=
  match s with
  | EmptyString => EmptyString
  | String c s' => encode_unit c +:+ encodeURIComponent s'
  end.

(** [parsePath] of the router: the hash starts at the first [#], the
    search at the first [?] before it.  An absent part is the empty
    string. *)
Fixpoint break_at (sep : ascii) (s : string) : string * string :=
  match s with
  | EmptyString => (EmptyString, EmptyString)
  | String c s' =>
      if Ascii.eqb c sep then (EmptyString, s)
      else let '(before, rest) := break_at sep s' in (String c before, rest)
  end.

Record Path := mkPath {
  pathname : string;
  search : string;
  hash : string
}.

Definition parsePath (to : string) : Path :=
  let '(p, hash) := break_at "#" to in
  let '(pathname, search) := break_at "?" p in
  mkPath pathname search hash.

(** *** Reading the query string

    [new URLSearchParams(search)] drops a leading [?], encodes the rest
    as UTF-8 and hands the bytes to the form-urlencoded parser. *)
Definition utf8_encode (s : string) : list ascii :=
  flat_map utf8 (list_ascii_of_string s).

(** Sequences between [&] bytes. *)
Fixpoint split_on (sep : ascii) (bytes : list ascii) : list (list ascii) :=
  match bytes with
  | [] => [[]]
  | b :: bytes' =>
      if Ascii.eqb b sep then [] :: split_on sep bytes'
      else match split_on sep bytes' with
           | current :: rest => (b :: current) :: rest
           | [] => [[b]]
           end
  end.

(** The name is what precedes the first [=], the value what follows it;
    without [=] the value is empty. *)
Fixpoint name_value (bytes : list ascii) : list ascii * list ascii :=
  match bytes with
  | [] => ([], [])
  | b :: bytes' =>
      if Ascii.eqb b "=" then ([], bytes')
      else let '(name, value) := name_value bytes' in (b :: name, value)
  end.

Definition plus_to_space (bytes : list ascii) : list ascii :=
  (λ b : ascii, if Ascii.eqb b "+" then " "%char else b) <$> bytes.

Definition hex_value (c : ascii) : option N :=
  let n := N_of_ascii c in
  if ((48 <=? n) && (n <=? 57))%N then Some (n - 48)%N
  else if ((65 <=? n) && (n <=? 70))%N then Some (n - 55)%N
  else if ((97 <=? n) && (n <=? 102))%N then Some (n - 87)%N
  else None.

(** A [%] followed by two hex digits is the byte they spell; any other
    byte stands for itself. *)
Fixpoint percent_decode (bytes : list ascii) : list ascii :=
  match bytes with
  | [] => []
  | b :: bytes' =>
      if Ascii.eqb b "%" then
        match bytes' with
        | h :: l :: bytes'' =>
            match hex_value h, hex_value l with
            | Some x, Some y => ascii_of_N (16 * x + y) :: percent_decode bytes''
            | _, _ => b :: percent_decode bytes'
            end
        | _ => b :: percent_decode bytes'
        end
      else b :: percent_decode bytes'
  end.

(** UTF-8 decoding, as far as the result is a string of code units below
    256: one-byte sequences and the two-byte sequences led by 0xC2 and
    0xC3.  [None] stands for a text outside this embedding (a code point
    from 256 on, or the replacement character put for a malformed
    sequence). *)
Fixpoint utf8_decode (bytes : list ascii) : option string :=
  match bytes with
  | [] => Some EmptyString
  | b :: bytes' =>
      let n := N_of_ascii b in
      if (n <? 128)%N then String b <$> utf8_decode bytes'
      else if ((n =? 194) || (n =? 195))%N then
        match bytes' with
        | b2 :: bytes'' =>
            let n2 := N_of_ascii b2 in
            if ((128 <=? n2) && (n2 <? 192))%N
            then String (ascii_of_N ((n - 192) * 64 + (n2 - 128))) <$> utf8_decode bytes''
            else None
        | [] => None
        end
      else None
  end.

Definition decode (bytes : list ascii) : option string :=
  utf8_decode (percent_decode (plus_to_space bytes)).

(** The name-value pairs of a query string; empty sequences are skipped. *)
Definition pairs (init : string) : list (option string * option string) :=
  let input := match init with
               | String "?" rest => rest
               | _ => init
               end in
  (λ sequence, let '(name, value) := name_value sequence in (decode name, decode value))
    <$> filter (λ sequence, sequence ≠ []) (split_on "&" (utf8_encode input)).

(** [searchParams.get(name)]: the value of the first pair with that name,
    [null] without one.  The outer [None] is a value outside this
    embedding. *)
Fixpoint lookup_pair (name : string) (l : list (option string * option string))
    : option (option string) :=
  match l with
  | [] => Some None
  | (n, v) :: l' =>
      if bool_decide (n = Some name) then Some <$> v else lookup_pair name l'
  end.

Definition get (name : string) (init : string) : option (option string) :=
  lookup_pair name (pairs init).

(** A byte [encodeURIComponent] can put out. *)
Definition kept (b : ascii) : bool := unreserved b || Ascii.eqb b "%".

End Url.

(** ** App.tsx: the search box *)
Module SearchBox.
Import Page.

(** [handleSearch], with the [searchTerm] of the render it belongs to. *)
Definition handleSearch (searchTerm : string) : Handler App.State unit :=
  if Js.truthy (Js.trim searchTerm) then
    navigate ("/search?q=" +:+ Url.encodeURIComponent (Js.trim searchTerm))
  else mret tt.

(** [searchParams.get('q')] of the search page at the location [to]. *)
Definition query_at (to : string) : option (option string) :=
  Url.get "q" (Url.search (Url.parsePath to)).

End SearchBox.

(** ** components/AuthModal.tsx *)
Module AuthModal.

(** [String.prototype.includes] *)
Fixpoint includes (s sub : string) : bool :=
  String.prefix sub s ||
  match s with
  | EmptyString => false
  | String _ s' => includes s' sub
  end.

Inductive Mode := signin | signup | reset.

#[global] Instance Mode_eq_dec : EqDecision Mode.
Proof. solve_decision. Defined.

Record State := mkState {
  mode : Mode;
  email : string;
  password : string;
  fullName : string;
  error : option string;
  message : option string;
  onClose_calls : nat      (* how often the [onClose] prop has been called *)
}.

(** The [useState] initial values. *)
Definition initialState (initialMode : Mode) : State :=
  mkState initialMode "" "" "" None None 0.

Definition setMode (v : Mode) (s : State) : State :=
  mkState v (email s) (password s) (fullName s) (error s) (message s) (onClose_calls s).
Definition setEmail (v : string) (s : State) : State :=
  mkState (mode s) v (password s) (fullName s) (error s) (message s) (onClose_calls s).
Definition setPassword (v : string) (s : State) : State :=
  mkState (mode s) (email s) v (fullName s) (error s) (message s) (onClose_calls s).
Definition setFullName (v : string) (s : State) : State :=
  mkState (mode s) (email s) (password s) v (error s) (message s) (onClose_calls s).
Definition setError (v : option string) (s : State) : State :=
  mkState (mode s) (email s) (password s) (fullName s) v (message s) (onClose_calls s).
Definition setMessage (v : option string) (s : State) : State :=
  mkState (mode s) (email s) (password s) (fullName s) (error s) v (onClose_calls s).
Definition onClose (s : State) : State :=
  mkState (mode s) (email s) (password s) (fullName s) (error s) (message s)
          (S (onClose_calls s)).

(** The calls into the auth store: each promise resolves or rejects. *)
Inductive Effect : Type → Type :=
| SignIn (email password : string) : Effect (Outcome unit)
| SignUp (email password fullName : string) : Effect (Outcome unit)
| ResetPassword (email : string) : Effect (Outcome unit).

Abbreviation Handler := (Action.t State Effect).

(** [await call]: a rejection is thrown into the handler. *)
Definition await (call : Effect (Outcome unit)) : Handler unit :=
  Action.Do call (λ r, match r with
                       | Fulfilled _ => Action.Done tt
                       | Rejected e => Action.Raise e
                       end).

Definition already_registered : string :=
  "This email is already registered. Please sign in instead.".
Definition signed_up : string :=
  "Sign up successful! Please check your email to verify your account.".
Definition reset_sent : string :=
  "If an account exists for this email, a password reset link has been sent.".

(** [handleSubmit], with the [mode] and the field values of the render it
    belongs to; [resetPassword] tells whether the store has that
    function. *)
Definition handleSubmit (resetPassword : bool) (mode : Mode)
    (email password fullName : string) : Handler unit :=
  Action.put (setError None);;
  Action.put (setMessage None);;
  Action.try_catch
    (match mode with
     | signin =>
         await (SignIn email password);;
         Action.put onClose
     | signup =>
         (if negb (Js.truthy (Js.trim fullName))
          then Action.Raise (mkError "Full name is required" true)
          else Action.Done tt);;
         await (SignUp email password fullName);;
         Action.put (setMessage (Some signed_up))
     | reset =>
         if resetPassword then
           await (ResetPassword email);;
           Action.put (setMessage (Some reset_sent))
         else Action.Raise (mkError "Password reset functionality not available." true)
     end)
    (λ err,
       if instanceof_Error err then
         if includes (Supabase.message err) "User already registered"
            || includes (Supabase.message err) "User already exists"
         then Action.put (setError (Some already_registered));;
              Action.put (setMode signin)
         else Action.put (setError (Some (Supabase.message err)))
       else Action.put (setError (Some "An error occurred"))).

(** The auth store behind the modal, in some state [S]; [resetPassword]
    may be missing. *)
Record Auth (S : Type) := mkAuth {
  signIn : string → string → S → Outcome unit * S;
  signUp : string → string → string → S → Outcome unit * S;
  resetPassword : option (string → S → Outcome unit * S)
}.
Arguments mkAuth {S} _ _ _.
Arguments signIn {S} _ _ _ _.
Arguments signUp {S} _ _ _ _ _.
Arguments resetPassword {S} _.

(** The store calls made, oldest first. *)
Inductive Call :=
| CalledSignIn (email password : string)
| CalledSignUp (email password fullName : string)
| CalledResetPassword (email : string).

Record Session (S : Type) := mkSession {
  store : S;
  made : list Call
}.
Arguments mkSession {S} _ _.
Arguments store {S} _.
Arguments made {S} _.

(** Calling a function the store does not have throws a [TypeError]. *)
Definition handle {S} (auth : Auth S) (X : Type) (effect : Effect X) (env : Session S)
    : X * Session S :=
  match effect in Effect X return X * Session S with
  | SignIn e p =>
      let '(r, s') := signIn auth e p (store env) in
      (r, mkSession s' (made env ++ [CalledSignIn e p]))
  | SignUp e p n =>
      let '(r, s') := signUp auth e p n (store env) in
      (r, mkSession s' (made env ++ [CalledSignUp e p n]))
  | ResetPassword e =>
      match resetPassword auth with
      | Some f =>
          let '(r, s') := f e (store env) in
          (r, mkSession s' (made env ++ [CalledResetPassword e]))
      | None => (Rejected (mkError "resetPassword is not a function" true), env)
      end
  end.

(** What the user can do with the modal. *)
Inductive Event :=
| Submit
| CloseButton
| ForgotPassword
| ToggleMode
| BackToSignIn
| TypeEmail (v : string)
| TypePassword (v : string)
| TypeFullName (v : string).

(** The control behind an event is on the screen. *)
Definition rendered (s : State) (e : Event) : bool :=
  match e with
  | TypeFullName _ => bool_decide (mode s = signup)
  | TypePassword _ => bool_decide (mode s ≠ reset)
  | ForgotPassword => bool_decide (mode s ≠ reset) && bool_decide (mode s = signin)
  | ToggleMode => bool_decide (mode s ≠ reset)
  | BackToSignIn => bool_decide (mode s = reset)
  | Submit | CloseButton | TypeEmail _ => true
  end.

(** The three links that change the mode clear both lines. *)
Definition switch_to (m : Mode) (s : State) : State :=
  setMessage None (setError None (setMode m s)).

Definition close (initialMode : Mode) (s : State) : State :=
  onClose (setMode initialMode (setFullName "" (setPassword "" (setEmail ""
    (setMessage None (setError None s)))))).

Definition submit {S} (auth : Auth S) (s : State) (env : Session S)
    : Outcome unit * State * Session S :=
  Action.run (handle auth)
    (handleSubmit (bool_decide (is_Some (resetPassword auth)))
                  (mode s) (email s) (password s) (fullName s))
    s env.

(** One event; a submit runs to its end before the next event. *)
Definition step {S} (auth : Auth S) (initialMode : Mode) (x : State * Session S) (e : Event)
    : State * Session S :=
  let '(s, env) := x in
  if negb (rendered s e) then x
  else match e with
       | Submit => let r := submit auth s env in (r.1.2, r.2)
       | CloseButton => (close initialMode s, env)
       | ForgotPassword => (switch_to reset s, env)
       | ToggleMode =>
           (switch_to (match mode s with signin => signup | _ => signin end) s, env)
       | BackToSignIn => (switch_to signin s, env)
       | TypeEmail v => (setEmail v s, env)
       | TypePassword v => (setPassword v s, env)
       | TypeFullName v => (setFullName v s, env)
       end.

Definition exec {S} (auth : Auth S) (initialMode : Mode) (events : list Event)
    (x : State * Session S) : State * Session S :=
  foldl (step auth initialMode) x events.


(** At most one of the two lines is on the screen. *)
Definition exclusive (s : State) : Prop := error s = None ∨ message s = None.

Definition is_submit (e : Event) : bool :=
  match e with Submit => true | _ => false end.
Definition is_close (e : Event) : bool :=
  match e with CloseButton => true | _ => false end.
Definition is_sign_in (c : Call) : bool :=
  match c with CalledSignIn _ _ => true | _ => false end.

Definition submits (events : list Event) : nat :=
  length (filter (λ e, is_submit e = true) events).
Definition close_clicks (events : list Event) : nat :=
  length (filter (λ e, is_close e = true) events).
Definition sign_ins (calls : list Call) : nat :=
  length (filter (λ c, is_sign_in c = true) calls).

End AuthModal.

(** A sample auth store *)
Module AuthDemo.
Import AuthModal.

(** A store that knows the registered emails: signing in works for a
    registered email, signing up registers a new one. *)
Definition accounts : Auth (list string) :=
  mkAuth
    (λ e p s, (if bool_decide (e ∈ s) then Fulfilled tt
               else Rejected (mkError "Invalid login credentials" true), s))
    (λ e p n s, if bool_decide (e ∈ s)
                then (Rejected (mkError "AuthApiError: User already registered" true), s)
                else (Fulfilled tt, s ++ [e]))
    None.

Definition filled : State := mkState signup "a@x.org" "pw" " Ann " None None 0.

End AuthDemo.

(** ** pages/ClubDetailPage.tsx *)
Module ClubDetail.
Import Page.

(** An event of the club with the number of its registrations:
    [{ ...event, registered_count }]. *)
Record EventCard := mkCard {
  event : Row;
  registered_count : nat
}.

Record State := mkState {
  club : option Row;
  events : list EventCard;
  isMember : bool;
  loading : bool;
  error : option string;
  actionLoading : bool;
  isEditModalOpen : bool
}.

(** The [useState] initial values. *)
Definition initialState : State := mkState None [] false true None false false.

Definition setClub (v : option Row) (s : State) : State :=
  mkState v (events s) (isMember s) (loading s) (error s) (actionLoading s)
          (isEditModalOpen s).
Definition setEvents (v : list EventCard) (s : State) : State :=
  mkState (club s) v (isMember s) (loading s) (error s) (actionLoading s)
          (isEditModalOpen s).
Definition setIsMember (v : bool) (s : State) : State :=
  mkState (club s) (events s) v (loading s) (error s) (actionLoading s)
          (isEditModalOpen s).
Definition setLoading (v : bool) (s : State) : State :=
  mkState (club s) (events s) (isMember s) v (error s) (actionLoading s)
          (isEditModalOpen s).
Definition setError (v : option string) (s : State) : State :=
  mkState (club s) (events s) (isMember s) (loading s) v (actionLoading s)
          (isEditModalOpen s).
Definition setActionLoading (v : bool) (s : State) : State :=
  mkState (club s) (events s) (isMember s) (loading s) (error s) v
          (isEditModalOpen s).
Definition setIsEditModalOpen (v : bool) (s : State) : State :=
  mkState (club s) (events s) (isMember s) (loading s) (error s) (actionLoading s) v.

(** A value read off an object and written into a filter: what the
    template literal [`eq.${value}`] of the query builder makes of it.
    [None] is [undefined]. *)
Definition template (v : option Value) : string :=
  match v with
  | None => "undefined"
  | Some VNull => "null"
  | Some (VStr s) => s
  | Some (VBool true) => "true"
  | Some (VBool false) => "false"
  | Some (VStrs l) => String.concat "," l
  end.

(** An object literal sent as JSON: a key whose value is [undefined] is
    left out. *)
Definition object (fields : list (string * option Value)) : list (string * Value) :=
  omap (λ kv : string * option Value, (λ v, (kv.1, v)) <$> kv.2) fields.

Definition clubQuery (clubId : string) : Query :=
  from "clubs" |> select ["*"] |> eq_ "id" clubId |> single.

Definition eventsQuery (clubId today : string) : Query :=
  from "events" |> select ["*"] |> eq_ "club_id" clubId |> gte "date" today
    |> order "date" true.

(** The request [select('*', { count: 'exact', head: true })]: its
    response carries the number of rows selected and no rows.  The number
    is read here off the rows the backend selects for the request. *)
Definition countQuery (event : Row) : Query :=
  from "event_registrations" |> select ["*"] |> eq_ "event_id" (template (event !! "id")).

Definition count {T} (r : Response (list T)) : option nat := length <$> data r.

Definition membershipQuery (uid clubId : string) : Query :=
  from "club_memberships" |> select ["club_id"] |> eq_ "user_id" uid
    |> eq_ "club_id" clubId.

(** [.maybeSingle()]: no row is [null] data, one row is that row, more
    than one is an error. *)
Definition maybeSingle (r : Response (list Row)) : Response Row :=
  match Supabase.error r with
  | Some e => mkResponse None (Some e)
  | None =>
      match data r with
      | Some [row] => mkResponse (Some row) None
      | Some (_ :: _ :: _) =>
          mkResponse None
            (Some (mkError "JSON object requested, multiple (or no) rows returned" false))
      | Some [] | None => mkResponse None None
      end
  end.

(** [Promise.all(rows.map(async row => ...))] for closures that send one
    request each and set no state: the requests go out in the order of
    the rows and the results come back in that order. *)
Fixpoint for_each {St A B} (f : A → Async St B) (l : list A) : Async St (list B) :=
  match l with
  | [] => Ret []
  | a :: l' => b ← f a; bs ← for_each f l'; Ret (b :: bs)
  end.

(** [count || 0] *)
Definition withCount (event : Row) : Async State EventCard :=
  r ← await_rows (countQuery event);
  Ret (mkCard event (default 0 (count r))).

(** The cards [Promise.all] resolves to when [b] answers the count
    requests. *)
Definition counted (b : Backend) (rows : list Row) : list EventCard :=
  (λ event, mkCard event (default 0 (count (fetch_rows b (countQuery event))))) <$> rows.

(** [clubId] is the route parameter, [today] the date of
    [new Date().toISOString()]. *)
Definition fetchClubData (clubId : option string) (user : option User) (today : string)
    : Async State unit :=
  match clubId with
  | Some cid =>
      if Js.truthy cid then
        set_state (setLoading true);;
        set_state (setError None);;
        finally
          (try_catch
             (r ← await_row (clubQuery cid);
              throw_if r;;
              match data r with
              | None => Throw (mkError "Club not found." true)
              | Some clubData =>
                  set_state (setClub (Some clubData));;
                  r ← await_rows (eventsQuery cid today);
                  throw_if r;;
                  eventsWithCounts ← for_each withCount (default [] (data r));
                  set_state (setEvents eventsWithCounts);;
                  match logged_in_id user with
                  | Some uid =>
                      r ← await_rows (membershipQuery uid cid);
                      let m := maybeSingle r in
                      throw_if m;;
                      set_state (setIsMember (bool_decide (is_Some (data m))))
                  | None => set_state (setIsMember false)
                  end
              end)
             (λ err,
                console "Error fetching club details:";;
                set_state (setError (Some (error_text "Failed to load club details." err)));;
                set_state (setClub None);;
                set_state (setEvents [])))
          (set_state (setLoading false))
      else
        set_state (setError (Some "Club ID not found."));;
        set_state (setLoading false)
  | None =>
      set_state (setError (Some "Club ID not found."));;
      set_state (setLoading false)
  end.

Definition joinRequest (club : Row) (u : User) : Mutation :=
  Insert "club_memberships"
         (object [("club_id", club !! "id"); ("user_id", Some (VStr (user_id u)))]).

Definition leaveRequest (club : Row) (u : User) : Mutation :=
  Delete "club_memberships"
         [FEq "club_id" (template (club !! "id")); FEq "user_id" (user_id u)].

Definition deleteRequest (club : Row) : Mutation :=
  Delete "clubs" [FEq "id" (template (club !! "id"))].

(** The handlers read [user] and [club] of the render they belong to. *)
Definition handleJoin (user : option User) (club : option Row) : Handler State unit :=
  match user, club with
  | Some u, Some c =>
      Action.put (setActionLoading true);;
      Action.finally
        (Action.try_catch
           (r ← write (joinRequest c u);
            raise_if r;;
            Action.put (setIsMember true))
           (λ err,
              log "Error joining club:";;
              alert (error_text "Failed to join club" err)))
        (Action.put (setActionLoading false))
  | _, _ => mret tt
  end.

Definition handleLeave (user : option User) (club : option Row) : Handler State unit :=
  match user, club with
  | Some u, Some c =>
      Action.put (setActionLoading true);;
      Action.finally
        (Action.try_catch
           (r ← write (leaveRequest c u);
            raise_if r;;
            Action.put (setIsMember false))
           (λ err,
              log "Error leaving club:";;
              alert (error_text "Failed to leave club" err)))
        (Action.put (setActionLoading false))
  | _, _ => mret tt
  end.

Definition confirm_delete : string :=
  "Are you sure you want to delete this club and all its associated events? This action cannot be undone.".

Definition handleDeleteClub (user : option User) (club : option Row) : Handler State unit :=
  match user, club with
  | Some _, Some c =>
      ok ← confirm confirm_delete;
      if negb ok then mret tt
      else
        Action.put (setActionLoading true);;
        Action.finally
          (Action.try_catch
             (r ← write (deleteRequest c);
              raise_if r;;
              alert "Club deleted successfully.";;
              navigate "/clubs")
             (λ err,
                log "Error deleting club:";;
                alert (error_text "Failed to delete club" err)))
          (Action.put (setActionLoading false))
  | _, _ => mret tt
  end.

(** What the page renders. *)
Inductive MemberButton := NoButton | JoinClub | LeaveClub.

Inductive View :=
| LoadingDetails
| ErrorLine (text : string)
| ClubNotFound
| Details (club : Row) (button : MemberButton) (owner_buttons : bool)
          (events : list EventCard).

(** [user?.id === club.created_by || user?.is_admin]; without a user the
    left side compares [undefined] with the [created_by] of the club. *)
Definition ownerButtons (user : option User) (club : Row) : bool :=
  match user with
  | Some u => bool_decide (club !! "created_by" = Some (VStr (user_id u))) || is_admin u
  | None => bool_decide (club !! "created_by" = None)
  end.

Definition render (user : option User) (s : State) : View :=
  if loading s then LoadingDetails
  else if Js.truthy_opt (error s) then ErrorLine (default "" (error s))
  else match club s with
       | None => ClubNotFound
       | Some c =>
           Details c
             (match user with
              | Some _ => if isMember s then LeaveClub else JoinClub
              | None => NoButton
              end)
             (ownerButtons user c)
             (events s)
       end.

(** The state a visit of the page ends in: [visit b clubId user today st]. *)
Definition visit (b : Backend) (clubId : option string) (user : option User)
    (today : string) (st : State) : Outcome unit * World State :=
  run b (fetchClubData clubId user today) (initial st).

End ClubDetail.

(** Sample data for the club page *)
Module DetailDemo.

Definition registration (event_id user_id : string) : Row :=
  {[ "event_id" := VStr event_id; "user_id" := VStr user_id ]}.

Definition club_event (id title date club_id : string) : Row :=
  {[ "id" := VStr id; "title" := VStr title; "date" := VStr date;
     "club_id" := VStr club_id ]}.

Definition board : Postgrest.Database :=
  {[ "clubs" := [Demo.club "c-chess" "Chess club" "u-bob";
                 Demo.club "c-film" "Film club" "u-alice"];
     "club_memberships" := [Demo.membership "c-chess" "u-alice";
                            Demo.membership "c-chess" "u-bob"];
     "events" := [club_event "e-blitz" "Blitz night" "2026-03-20" "c-chess";
                  club_event "e-open" "Spring open" "2026-03-16" "c-chess";
                  club_event "e-old" "Winter cup" "2026-01-10" "c-chess";
                  club_event "e-noir" "Film noir" "2026-03-18" "c-film"];
     "event_registrations" := [registration "e-blitz" "u-alice";
                               registration "e-blitz" "u-bob";
                               registration "e-noir" "u-alice"] ]}.

Definition server : Postgrest.Server := Postgrest.mkServer board Postgrest.no_outage.

Definition site : PostgrestWrites.Server :=
  PostgrestWrites.mkServer server PostgrestWrites.nothing_refused.

End DetailDemo.
(** * Properties *)

(** Membership in a list that is written out. *)
Ltac in_list :=
  simpl; repeat first [apply list_elem_of_here | apply list_elem_of_further].

(** ** Running composed handlers *)
Section RunLemmas.
Context {St : Type} (b : Backend).
Implicit Types w : World St.

Lemma run_bind {A B} (m : Async St A) (f : A → Async St B) w :
  run b (bind m f) w =
  match run b m w with
  | (Fulfilled a, w') => run b (f a) w'
  | (Rejected e, w') => (Rejected e, w')
  end.
Proof.
  revert w. induction m as [a|e|q k IH|q k IH|g k IH|l k IH]; intros w; simpl; auto.
Qed.

Lemma run_try_catch {A} (m : Async St A) (h : ErrorValue → Async St A) w :
  run b (try_catch m h) w =
  match run b m w with
  | (Fulfilled a, w') => (Fulfilled a, w')
  | (Rejected e, w') => run b (h e) w'
  end.
Proof.
  revert w. induction m as [a|e|q k IH|q k IH|g k IH|l k IH]; intros w; simpl; auto.
Qed.

Lemma run_finally {A} (m : Async St A) (fin : Async St unit) w :
  run b (finally m fin) w =
  match run b m w with
  | (Fulfilled a, w') =>
      match run b fin w' with
      | (Fulfilled _, w'') => (Fulfilled a, w'')
      | (Rejected e, w'') => (Rejected e, w'')
      end
  | (Rejected e, w') =>
      match run b fin w' with
      | (Fulfilled _, w'') => (Rejected e, w'')
      | (Rejected e', w'') => (Rejected e', w'')
      end
  end.
Proof.
  revert w. induction m as [a|e|q k IH|q k IH|g k IH|l k IH]; intros w; simpl; auto.
  - rewrite run_bind. destruct (run b fin w) as [[?|?] ?]; reflexivity.
  - rewrite run_bind. destruct (run b fin w) as [[?|?] ?]; reflexivity.
Qed.

End RunLemmas.

(** ** The reference backend: caps, filters and order *)
Section Reference.

Lemma string_leb_iff a b :
  String.leb a b = true ↔ String_as_OT.lt a b ∨ a = b.
Proof.
  unfold String.leb.
  destruct (String.compare a b) eqn:E.
  - apply String_as_OT.cmp_eq in E. tauto.
  - apply String_as_OT.cmp_lt in E. tauto.
  - split; [discriminate|]. intros [H| ->].
    + apply String_as_OT.cmp_lt in H. unfold String_as_OT.cmp in H. congruence.
    + assert (String.compare b b = Eq) by (by apply String_as_OT.cmp_eq). congruence.
Qed.

Lemma string_leb_trans a b c :
  String.leb a b = true → String.leb b c = true → String.leb a c = true.
Proof.
  rewrite !string_leb_iff. intros [H1| ->] [H2| ->]; auto.
  left. eapply String_as_OT.lt_trans; eauto.
Qed.

Lemma key_leb_total k1 k2 :
  Postgrest.key_leb k1 k2 = true ∨ Postgrest.key_leb k2 k1 = true.
Proof. destruct k1, k2; simpl; auto using String.leb_total. Qed.

Lemma key_leb_trans k1 k2 k3 :
  Postgrest.key_leb k1 k2 = true → Postgrest.key_leb k2 k3 = true →
  Postgrest.key_leb k1 k3 = true.
Proof. destruct k1, k2, k3; simpl; eauto using string_leb_trans; discriminate. Qed.

#[local] Instance row_le_total column ascending :
  Total (Postgrest.row_le column ascending).
Proof.
  intros r1 r2. unfold Postgrest.row_le, Postgrest.row_leb.
  destruct ascending; apply key_leb_total.
Qed.

#[local] Instance row_le_trans column ascending :
  Transitive (Postgrest.row_le column ascending).
Proof.
  intros r1 r2 r3. unfold Postgrest.row_le, Postgrest.row_leb.
  destruct ascending; eauto using key_leb_trans.
Qed.

Lemma ordered_sorted q rows column ascending :
  ordering q = Some (column, ascending) →
  StronglySorted (Postgrest.row_le column ascending) (Postgrest.ordered q rows).
Proof.
  intros Ho. unfold Postgrest.ordered. rewrite Ho.
  apply StronglySorted_merge_sort; apply _.
Qed.

Lemma ordered_elem_of q rows r : r ∈ Postgrest.ordered q rows ↔ r ∈ rows.
Proof.
  unfold Postgrest.ordered. destruct (ordering q) as [[c a]|]; [|done].
  by rewrite merge_sort_Permutation.
Qed.

Lemma capped_sorted {R : relation Row} q rows :
  StronglySorted R rows → StronglySorted R (Postgrest.capped q rows).
Proof.
  intros Hs. unfold Postgrest.capped. destruct (row_limit q) as [n|]; [|done].
  rewrite <- (take_drop n rows) in Hs. by apply StronglySorted_app_1_l in Hs.
Qed.

Lemma capped_elem_of q rows r : r ∈ Postgrest.capped q rows → r ∈ rows.
Proof.
  unfold Postgrest.capped. destruct (row_limit q) as [n|]; [|done].
  apply subseteq_take.
Qed.

Lemma text_Some r c s : Postgrest.text r c = Some s ↔ r !! c = Some (VStr s).
Proof.
  unfold Postgrest.text. destruct (r !! c) as [[]|]; split; intros; simplify_eq; done.
Qed.

Lemma project_text columns r c :
  c ∈ columns → Postgrest.text (Postgrest.project columns r) c = Postgrest.text r c.
Proof.
  intros Hc. unfold Postgrest.text, Postgrest.project.
  case_bool_decide; [done|].
  destruct (r !! c) as [v|] eqn:E.
  - erewrite (map_lookup_filter_Some_2 _ r c v); done.
  - rewrite (proj2 (map_lookup_filter_None _ r c)); [done|]. by left.
Qed.

Lemma select_rows_capped db q columns n :
  row_limit q = Some n → length (Postgrest.select_rows db q columns) ≤ n.
Proof.
  intros Hn. unfold Postgrest.select_rows, Postgrest.capped. rewrite Hn.
  rewrite length_fmap, length_take. lia.
Qed.

Lemma served_rows_capped srv q n :
  row_limit q = Some n →
  length (default [] (data (fetch_rows (Postgrest.serve srv) q))) ≤ n.
Proof.
  intros Hn. simpl. unfold Postgrest.rows_response.
  destruct (Postgrest.outage srv q); simpl; [lia|].
  destruct (verb q); simpl; [|lia].
  by apply select_rows_capped.
Qed.

Lemma select_rows_elem db q columns r :
  r ∈ Postgrest.select_rows db q columns →
  ∃ r0, r = Postgrest.project columns r0 ∧ r0 ∈ Postgrest.rows_of db (table q) ∧
        Postgrest.satisfies q r0 = true.
Proof.
  unfold Postgrest.select_rows. intros (r0 & -> & Hr0)%list_elem_of_fmap.
  apply capped_elem_of, ordered_elem_of, list_elem_of_filter in Hr0 as [Hs Hin]. eauto.
Qed.

Lemma select_rows_gte db q columns c v r :
  FGte c v ∈ filters q → c ∈ columns →
  r ∈ Postgrest.select_rows db q columns →
  ∃ s, r !! c = Some (VStr s) ∧ String.leb v s = true.
Proof.
  intros Hf Hc (r0 & -> & _ & Hs)%select_rows_elem.
  unfold Postgrest.satisfies in Hs. rewrite forallb_forall in Hs.
  apply list_elem_of_In, Hs in Hf. simpl in Hf.
  destruct (Postgrest.text r0 c) as [s|] eqn:E; [|discriminate].
  exists s. split; [|done]. apply text_Some. by rewrite project_text.
Qed.

Lemma select_rows_sorted db q columns c ascending :
  ordering q = Some (c, ascending) → c ∈ columns →
  StronglySorted (Postgrest.row_le c ascending) (Postgrest.select_rows db q columns).
Proof.
  intros Ho Hc. unfold Postgrest.select_rows.
  eapply StronglySorted_fmap; [|by apply capped_sorted, ordered_sorted].
  intros r1 r2. unfold Postgrest.row_le, Postgrest.row_leb.
  by rewrite !project_text.
Qed.

Lemma StronglySorted_refine {A} (R R' : relation A) (P : A → Prop) l :
  (∀ x y, P x → P y → R x y → R' x y) →
  Forall P l → StronglySorted R l → StronglySorted R' l.
Proof.
  intros HR HP Hs. induction Hs as [|x l Hs IH Hx]; [constructor|].
  apply Forall_cons in HP as [Hpx HP]. constructor; [auto|].
  rewrite Forall_forall in *. eauto.
Qed.

End Reference.

(** ** The personalised feed *)
Section Feed.
Import App.

Ltac feed_unfold :=
  unfold selectFeaturedEvents, fetchFeaturedEvents, readInterests, fetchByInterests,
    fetchFallback, interestError, interestList, interestResponse, userInterests,
    fallbackError, fallbackList, throw_if, await_rows, await_row, set_state, console,
    mbind, mret, Async_bind, Async_ret in *.

Ltac feed_cases user b :=
  feed_unfold; simpl in *;
  destruct (logged_in_id user) as [?uid|]; simpl in *;
  [ destruct (fetch_row b (profileQuery uid)) as [?pd [?pe|]]; simpl in *;
    (destruct (interests_of pd) as [[|?t ?ts]|]; simpl in *)
  | ];
  repeat (case_match; simpl in *; try done; try congruence).

(** The list one computation leaves in [featuredEvents]. *)
Lemma feed_result b user today w :
  featuredEvents (ui (run b (fetchFeaturedEvents user today) w).2) =
  match interestError b user today with
  | Some _ => []
  | None =>
      match interestList b user today with
      | [] => match fallbackError b today with
              | Some _ => []
              | None => fallbackList b today
              end
      | l => l
      end
  end.
Proof. feed_cases user b. Qed.

(** The requests one computation sends, in order. *)
Lemma feed_calls b user today w :
  calls (run b (fetchFeaturedEvents user today) w).2 =
  calls w
  ++ match logged_in_id user with Some uid => [profileQuery uid] | None => [] end
  ++ match userInterests b user with
     | Some ((_ :: _) as tags) => [interestQuery today tags]
     | _ => []
     end
  ++ match interestError b user today, interestList b user today with
     | None, [] => [fallbackQuery today]
     | _, _ => []
     end.
Proof. feed_cases user b; by rewrite <- ?app_assoc, ?app_nil_r. Qed.

Lemma feed_settles b user today w :
  (run b (fetchFeaturedEvents user today) w).1 = Fulfilled tt ∧
  loadingFeaturedEvents (ui (run b (fetchFeaturedEvents user today) w).2) = false.
Proof. feed_cases user b. Qed.

(** C1.  No user, no interest tags, or an interest-filtered request that
    succeeds with no rows all count as zero rows in step 2.  Then the
    fallback request (date >= today, ascending by date, at most 3 rows, no
    category filter) is sent, as the last request, and its rows are the
    feed.  When step 2 has rows, they are the feed and no fallback request
    is sent: the feed is one of the two lists, never a mix. *)
Theorem fallback_on_zero_rows b user today st :
  let w := (run b (fetchFeaturedEvents user today) (initial st)).2 in
  (logged_in_id user = None ∨ userInterests b user = None ∨ userInterests b user = Some [] →
     interestError b user today = None ∧ interestList b user today = []) ∧
  (interestError b user today = None → interestList b user today = [] →
     last (calls w) = Some (fallbackQuery today) ∧
     filters (fallbackQuery today) = [FGte "date" today] ∧
     ordering (fallbackQuery today) = Some ("date", true) ∧
     row_limit (fallbackQuery today) = Some 3 ∧
     (fallbackError b today = None → featuredEvents (ui w) = fallbackList b today)) ∧
  (interestError b user today = None → interestList b user today ≠ [] →
     featuredEvents (ui w) = interestList b user today ∧ fallbackQuery today ∉ calls w).
Proof.
  intros w. subst w. split; [|split].
  - unfold interestError, interestList, interestResponse, userInterests.
    intros [H|[H|H]]; rewrite H; done.
  - intros He Hl. rewrite feed_result, feed_calls, He, Hl. simpl.
    rewrite !app_assoc, last_snoc. repeat split; try done.
    by intros ->.
  - intros He Hl. rewrite feed_result, feed_calls, He.
    destruct (interestList b user today) as [|r l] eqn:E; [done|]. split; [done|].
    simpl. rewrite app_nil_r.
    intros [Hp|Hi]%elem_of_app.
    + destruct (logged_in_id user); [|by apply elem_of_nil in Hp].
      apply list_elem_of_singleton in Hp. discriminate Hp.
    + destruct (userInterests b user) as [[|]|]; try (by apply elem_of_nil in Hi).
      apply list_elem_of_singleton in Hi. discriminate Hi.
Qed.

Lemma fallback_on_zero_rows_witness :
  let b := Postgrest.serve Sample.campus_server in
  featuredEvents (ui (run b (fetchFeaturedEvents (Some Sample.alice) Sample.today)
                        (initial initialState)).2)
  = fallbackList b Sample.today.
Proof.
  intros b.
  apply (fallback_on_zero_rows b (Some Sample.alice) Sample.today initialState);
    vm_compute; reflexivity.
Defined.

(** C6.  A user whose interest-filtered request succeeds with no rows gets
    the feed a visitor without a user gets. *)
Theorem same_feed_as_without_user b user today st st' :
  interestError b user today = None →
  interestList b user today = [] →
  selectFeaturedEvents b user today st = selectFeaturedEvents b None today st'.
Proof.
  intros He Hl. unfold selectFeaturedEvents.
  rewrite !feed_result, He, Hl. reflexivity.
Qed.

(** The scenario of C6: interests = ["music"], and a sports event tomorrow
    as the only upcoming event.  The feed is the fallback list holding that
    event (with the columns the fallback request selects). *)
Lemma same_feed_as_without_user_witness :
  let b := Postgrest.serve Sample.campus_server in
  userInterests b (Some Sample.alice) = Some ["music"] ∧
  selectFeaturedEvents b (Some Sample.alice) Sample.today initialState
    = selectFeaturedEvents b None Sample.today initialState ∧
  selectFeaturedEvents b None Sample.today initialState
    = [{[ "id" := VStr "e-run"; "title" := VStr "Fun run";
          "date" := VStr Sample.tomorrow ]}].
Proof.
  intros b. split; [reflexivity|]. split.
  - apply (same_feed_as_without_user b (Some Sample.alice) Sample.today);
      vm_compute; reflexivity.
  - vm_compute. reflexivity.
Defined.

(** C7.  Without a user the feed is what the fallback request returns: on
    the reference backend at most 3 rows, each dated today or later, in
    ascending date order (and no rows when the request fails). *)
Theorem feed_without_user_is_recent srv today st :
  let feed := selectFeaturedEvents (Postgrest.serve srv) None today st in
  feed = match Postgrest.outage srv (fallbackQuery today) with
         | Some _ => []
         | None => Postgrest.select_rows (Postgrest.db srv) (fallbackQuery today)
                     ["id"; "title"; "date"; "image_url"; "club"]
         end ∧
  length feed ≤ 3 ∧
  Forall (λ r : Row, ∃ d, r !! "date" = Some (VStr d) ∧ String.leb today d = true) feed ∧
  StronglySorted
    (λ r1 r2 : Row, ∃ d1 d2, r1 !! "date" = Some (VStr d1) ∧ r2 !! "date" = Some (VStr d2) ∧
                             String.leb d1 d2 = true)
    feed.
Proof.
  intros feed.
  assert (feed = match Postgrest.outage srv (fallbackQuery today) with
                 | Some _ => []
                 | None => Postgrest.select_rows (Postgrest.db srv) (fallbackQuery today)
                             ["id"; "title"; "date"; "image_url"; "club"]
                 end) as Hfeed.
  { subst feed. feed_unfold. simpl. unfold Postgrest.rows_response.
    destruct (Postgrest.outage srv (fallbackQuery today)); reflexivity. }
  split; [exact Hfeed|]. rewrite Hfeed.
  destruct (Postgrest.outage srv (fallbackQuery today)).
  { repeat split; simpl; [lia|constructor|constructor]. }
  assert (Forall (λ r : Row, ∃ d, r !! "date" = Some (VStr d) ∧ String.leb today d = true)
            (Postgrest.select_rows (Postgrest.db srv) (fallbackQuery today)
               ["id"; "title"; "date"; "image_url"; "club"])) as Hdates.
  { apply Forall_forall. intros r Hr.
    eapply select_rows_gte; [| |exact Hr]; in_list. }
  split; [by apply select_rows_capped|]. split; [exact Hdates|].
  eapply StronglySorted_refine; [|exact Hdates|].
  2: { apply (select_rows_sorted _ _ _ "date" true); [done|in_list]. }
  intros r1 r2 (d1 & H1 & _) (d2 & H2 & _) Hle.
  exists d1, d2. split; [done|]. split; [done|].
  unfold Postgrest.row_le, Postgrest.row_leb in Hle.
  apply text_Some in H1, H2. by rewrite H1, H2 in Hle.
Qed.

(** C8, as stated, fails: with the profile request failing, the feed is
    still filled from the fallback request. *)
Lemma profile_error_keeps_feed :
  ¬ any_query_error_empties_feed (Postgrest.serve (Sample.campus_without "profiles"))
      (Some Sample.alice) Sample.today initialState.
Proof.
  intros H.
  assert (featuredEvents (ui (run (Postgrest.serve (Sample.campus_without "profiles"))
            (fetchFeaturedEvents (Some Sample.alice) Sample.today)
            (initial initialState)).2) = []) as Hempty.
  { apply H. exists (profileQuery "u-alice"). split.
    - vm_compute. left.
    - vm_compute. eauto. }
  vm_compute in Hempty. discriminate Hempty.
Qed.

(** C8, amended.  The promise of a feed computation is always fulfilled
    and the loading flag ends up cleared; a failed events request (the
    interest-filtered or the fallback one) leaves the feed empty; a failed
    profile request is only logged, and an events request still follows. *)
Theorem event_query_error_empties_feed b user today st :
  let r := run b (fetchFeaturedEvents user today) (initial st) in
  r.1 = Fulfilled tt ∧
  loadingFeaturedEvents (ui r.2) = false ∧
  ((∃ q, q ∈ calls r.2 ∧ table q = "events" ∧ is_Some (error (fetch_rows b q))) →
     featuredEvents (ui r.2) = []) ∧
  (∀ uid, logged_in_id user = Some uid →
     is_Some (error (fetch_row b (profileQuery uid))) →
     "Error fetching profile interests:" ∈ console_lines r.2 ∧
     ∃ q, q ∈ calls r.2 ∧ table q = "events").
Proof.
  intros r. subst r. split; [apply feed_settles|]. split; [apply feed_settles|]. split.
  - intros (q & Hq & Ht & [e He]). rewrite feed_result. rewrite feed_calls in Hq. simpl in Hq.
    apply elem_of_app in Hq as [Hp|Hq].
    { destruct (logged_in_id user); [|by apply elem_of_nil in Hp].
      apply list_elem_of_singleton in Hp. subst q. discriminate Ht. }
    apply elem_of_app in Hq as [Hi|Hf].
    + unfold interestError, interestList, interestResponse in *.
      destruct (userInterests b user) as [[|t ts]|]; try (by apply elem_of_nil in Hi).
      apply list_elem_of_singleton in Hi. subst q. simpl. by rewrite He.
    + destruct (interestError b user today); [done|].
      destruct (interestList b user today); [|by apply elem_of_nil in Hf].
      apply list_elem_of_singleton in Hf. subst q.
      unfold fallbackError. by rewrite He.
  - intros uid Hu [e He]. split.
    + feed_unfold. rewrite Hu. simpl.
      destruct (fetch_row b (profileQuery uid)) as [pd pe]. simpl in *. subst pe. simpl.
      destruct (interests_of pd) as [[|t ts]|]; simpl.
      all: repeat (case_match; simpl in *; try done; try congruence).
      all: in_list.
    + rewrite feed_calls. unfold interestError, interestList, interestResponse.
      destruct (userInterests b user) as [[|t ts]|]; simpl.
      * exists (fallbackQuery today). split; [|done].
        destruct (logged_in_id user); in_list.
      * exists (interestQuery today (t :: ts)). split; [|done].
        destruct (logged_in_id user); in_list.
      * exists (fallbackQuery today). split; [|done].
        destruct (logged_in_id user); in_list.
Qed.

Lemma event_query_error_empties_feed_witness :
  featuredEvents
    (ui (run (Postgrest.serve (Sample.campus_without "events"))
           (fetchFeaturedEvents (Some Sample.alice) Sample.today)
           (initial initialState)).2) = [].
Proof.
  apply (event_query_error_empties_feed (Postgrest.serve (Sample.campus_without "events"))
           (Some Sample.alice) Sample.today initialState).
  exists (interestQuery Sample.today ["music"]). split; [|split].
  - vm_compute. right. left.
  - reflexivity.
  - vm_compute. eauto.
Defined.

End Feed.

(** ** The search page *)
Section SearchResults.
Import SearchPage.

Ltac search_unfold :=
  unfold search, performSearch, throw_if, await_rows, set_state, console,
    mbind, mret, Async_bind, Async_ret in *.

(** The world after a search for a non-empty query, by the first request
    that fails. *)
Lemma search_run b q st :
  Js.truthy q = true →
  let t := ilike_pattern q in
  let r1 := fetch_rows b (eventsQuery t) in
  let r2 := fetch_rows b (clubsQuery t) in
  let r3 := fetch_rows b (announcementsQuery t) in
  let fail e := Some (error_text "Failed to perform search" e) in
  search b (Some q) st =
  match Supabase.error r1 with
  | Some e => mkWorld (mkState [] [] [] false (fail e)) [eventsQuery t] ["Search error:"]
  | None =>
    match Supabase.error r2 with
    | Some e =>
        mkWorld (mkState (default [] (data r1)) [] [] false (fail e))
                [eventsQuery t; clubsQuery t] ["Search error:"]
    | None =>
      match Supabase.error r3 with
      | Some e =>
          mkWorld (mkState (default [] (data r1)) (default [] (data r2)) [] false (fail e))
                  [eventsQuery t; clubsQuery t; announcementsQuery t] ["Search error:"]
      | None =>
          mkWorld (mkState (default [] (data r1)) (default [] (data r2))
                           (default [] (data r3)) false None)
                  [eventsQuery t; clubsQuery t; announcementsQuery t] []
      end
    end
  end.
Proof.
  intros Hq. search_unfold. rewrite Hq. simpl.
  repeat (case_match; simpl; try done).
Qed.








End SearchResults.

(** ** Handlers under the event loop *)
Section LoopLemmas.
Import EventLoop.
Context {St : Type} (b : Backend).
Implicit Types (m : Async St unit) (w : World St) (ts : list (option (Parked St))).

Lemma deliver_parked w ts p :
  deliver b (length ts) (mkLoop w (ts ++ [Some p])) = start (resume b p) (mkLoop w ts).
Proof.
  unfold deliver, start. simpl. rewrite list_lookup_middle by done.
  destruct (advance (resume b p) w) as [w' p'].
  f_equal. rewrite insert_app_r_alt by done. by rewrite Nat.sub_diag.
Qed.

Lemma deliver_settled w ts :
  deliver b (length ts) (mkLoop w (ts ++ [None])) = mkLoop w (ts ++ [None]).
Proof. unfold deliver. simpl. by rewrite list_lookup_middle. Qed.

Lemma deliver_iter_settled n w ts :
  Nat.iter n (deliver b (length ts)) (mkLoop w (ts ++ [None])) = mkLoop w (ts ++ [None]).
Proof. induction n as [|n IH]; simpl; [done|]. by rewrite IH, deliver_settled. Qed.

Lemma start_inflight m w ts :
  start m (mkLoop w ts) = mkLoop (advance m w).1 (ts ++ [(advance m w).2]).
Proof. unfold start. simpl. by destruct (advance m w). Qed.

Lemma deliver_at w ts p rest :
  deliver b (length ts) (mkLoop w (ts ++ Some p :: rest)) =
  mkLoop (advance (resume b p) w).1 (ts ++ (advance (resume b p) w).2 :: rest).
Proof.
  unfold deliver. simpl. rewrite list_lookup_middle by done.
  destruct (advance (resume b p) w) as [w' p']. simpl.
  f_equal. rewrite insert_app_r_alt by done. by rewrite Nat.sub_diag.
Qed.

Lemma deliver_at_settled w ts rest :
  deliver b (length ts) (mkLoop w (ts ++ None :: rest)) = mkLoop w (ts ++ None :: rest).
Proof. unfold deliver. simpl. by rewrite list_lookup_middle. Qed.

Lemma deliver_next w ts x p rest :
  deliver b (S (length ts)) (mkLoop w (ts ++ x :: Some p :: rest)) =
  mkLoop (advance (resume b p) w).1 (ts ++ x :: (advance (resume b p) w).2 :: rest).
Proof.
  pose proof (deliver_at w (ts ++ [x]) p rest) as H.
  rewrite length_app, Nat.add_1_r, <- !app_assoc in H. exact H.
Qed.

Lemma deliver_next_settled w ts x rest :
  deliver b (S (length ts)) (mkLoop w (ts ++ x :: None :: rest)) =
  mkLoop w (ts ++ x :: None :: rest).
Proof.
  pose proof (deliver_at_settled w (ts ++ [x]) rest) as H.
  rewrite length_app, Nat.add_1_r, <- !app_assoc in H. exact H.
Qed.

(** A handler whose responses arrive with no other handler running in
    between does what [run] says. *)
Lemma handler_alone m : ∀ w ts n,
  awaits b m ≤ n →
  Nat.iter n (deliver b (length ts)) (start m (mkLoop w ts)) =
  mkLoop (run b m w).2 (ts ++ [None]).
Proof.
  induction m as [a|e|q k IH|q k IH|g k IH|l k IH]; intros w ts n Hn.
  - apply deliver_iter_settled.
  - apply deliver_iter_settled.
  - destruct n as [|n]; [simpl in Hn; lia|].
    rewrite Nat.iter_succ_r. unfold start at 1. simpl.
    rewrite (deliver_parked _ ts (ParkedRows q k)). simpl.
    apply IH. simpl in Hn. lia.
  - destruct n as [|n]; [simpl in Hn; lia|].
    rewrite Nat.iter_succ_r. unfold start at 1. simpl.
    rewrite (deliver_parked _ ts (ParkedRow q k)). simpl.
    apply IH. simpl in Hn. lia.
  - apply (IH (mkWorld (g (ui w)) (calls w) (console_lines w)) ts n Hn).
  - apply (IH (mkWorld (ui w) (calls w) (console_lines w ++ [l])) ts n Hn).
Qed.

End LoopLemmas.

Section Session.
Import SearchPage EventLoop SearchSession.

Ltac search_unfold :=
  unfold search, performSearch, throw_if, await_rows, set_state, console,
    mbind, mret, Async_bind, Async_ret in *.

Lemma exec_arrivals b n i l :
  exec b (replicate n (ResponseArrives i)) l = Nat.iter n (deliver b i) l.
Proof.
  revert l. induction n as [|n IH]; intros l; [done|].
  rewrite Nat.iter_succ_r. simpl. apply IH.
Qed.

Lemma search_awaits b query : awaits b (performSearch query) ≤ 3.
Proof.
  search_unfold. destruct query as [q|]; simpl; [|lia].
  destruct (Js.truthy q); simpl; [|lia].
  repeat (case_match; simpl; try lia).
Qed.

(** A search for a non-empty query overwrites every field of the state. *)
Lemma search_ui_independent b q w w' :
  Js.truthy q = true →
  ui (run b (performSearch (Some q)) w).2 = ui (run b (performSearch (Some q)) w').2.
Proof.
  intros Hq. search_unfold. rewrite Hq. simpl.
  repeat (case_match; simpl; try done).
Qed.

(** C5, as stated, fails: the older search's responses arrive last and its
    rows replace those of the newer query. *)
Lemma stale_search_overwrites_newer :
  ¬ reflects_latest_query (Postgrest.serve Sample.campus_server) Sample.stale_schedule.
Proof.
  unfold reflects_latest_query. intros H.
  assert (idle (exec (Postgrest.serve Sample.campus_server) Sample.stale_schedule
                  (boot initialState))) as Hidle.
  { vm_compute. repeat constructor. }
  apply H in Hidle.
  apply (f_equal (λ s, (λ r : Row, r !! "id") <$> events s)) in Hidle.
  vm_compute in Hidle. discriminate Hidle.
Qed.

(** No search is in flight when the query changes: after its three
    responses the page holds the result of the new query alone. *)
Lemma settled_then_search b l q :
  idle l →
  Js.truthy q = true →
  let n := length (inflight l) in
  let l' := exec b (QueryChanged (Some q) :: replicate 3 (ResponseArrives n)) l in
  idle l' ∧ ui (world l') = fresh_result b (Some q).
Proof.
  intros Hidle Hq n l'. subst l'.
  change (exec b (QueryChanged (Some q) :: replicate 3 (ResponseArrives n)) l)
    with (exec b (replicate 3 (ResponseArrives n)) (start (performSearch (Some q)) l)).
  rewrite exec_arrivals. destruct l as [w ts]. subst n. simpl inflight.
  rewrite (handler_alone b _ w ts 3 (search_awaits b _)). simpl. split.
  - unfold idle in *. simpl in *. apply Forall_app. split; [done|by constructor].
  - unfold fresh_result, search. by apply search_ui_independent.
Qed.

Ltac loop_step :=
  first [ rewrite start_inflight
        | rewrite deliver_at
        | rewrite deliver_at_settled
        | rewrite deliver_next
        | rewrite deliver_next_settled ];
  simpl; rewrite <- ?app_assoc; simpl.

(** A search for [old] is in flight, with [k] of its responses in, when
    the query changes to [new]; the outstanding responses of [old] arrive
    before the first response of [new], and no request fails. *)
Lemma overlap_in_order b l old new k :
  idle l → Js.truthy old = true → Js.truthy new = true → k ≤ 3 →
  succeeds b old → succeeds b new →
  let n := length (inflight l) in
  let l' := exec b ([QueryChanged (Some old)] ++ replicate k (ResponseArrives n) ++
                    [QueryChanged (Some new)] ++ replicate (3 - k) (ResponseArrives n) ++
                    replicate 3 (ResponseArrives (S n))) l in
  idle l' ∧ ui (world l') = fresh_result b (Some new).
Proof.
  intros Hidle Ho Hn Hk (Ho1 & Ho2 & Ho3) (Hn1 & Hn2 & Hn3) n l'. subst l' n.
  unfold fresh_result. rewrite (search_run b new initialState Hn).
  cbv zeta. rewrite Hn1, Hn2, Hn3.
  destruct l as [w ts]. simpl inflight.
  assert (k = 0 ∨ k = 1 ∨ k = 2 ∨ k = 3) as [->|[->|[->| ->]]] by lia.
  all: unfold exec; simpl; unfold performSearch; rewrite Ho, Hn; search_unfold; simpl.
  all: repeat (loop_step; rewrite ?Ho1, ?Ho2, ?Ho3, ?Hn1, ?Hn2, ?Hn3; simpl).
  all: split; [|reflexivity].
  all: unfold idle in *; simpl in *; apply Forall_app; split; [done|by repeat constructor].
Qed.

(** C5, amended.  Responses are written as they arrive, with no guard.
    Once everything has settled the page holds the result of the latest
    (non-empty) query alone in two cases: no earlier search was in flight
    when the query changed; or an earlier search was in flight, its
    outstanding responses all arrived before the first response of the
    newer search, and no request of either search failed. *)
Theorem search_reflects_latest_query b l old new k :
  idle l →
  Js.truthy new = true →
  let n := length (inflight l) in
  (let l' := exec b (QueryChanged (Some new) :: replicate 3 (ResponseArrives n)) l in
   idle l' ∧ ui (world l') = fresh_result b (Some new)) ∧
  (Js.truthy old = true → k ≤ 3 → succeeds b old → succeeds b new →
   let l' := exec b ([QueryChanged (Some old)] ++ replicate k (ResponseArrives n) ++
                     [QueryChanged (Some new)] ++ replicate (3 - k) (ResponseArrives n) ++
                     replicate 3 (ResponseArrives (S n))) l in
   idle l' ∧ ui (world l') = fresh_result b (Some new)).
Proof.
  intros Hidle Hn n. split.
  - by apply settled_then_search.
  - intros Ho Hk Hso Hsn. by apply overlap_in_order.
Qed.

(** The queries of the counterexample, with the responses of the older
    search arriving first: one response before the query changes, two
    after it. *)
Lemma search_reflects_latest_query_witness :
  let b := Postgrest.serve Sample.campus_server in
  ui (world (exec b [QueryChanged (Some "run"); ResponseArrives 0;
                     QueryChanged (Some "gig"); ResponseArrives 0; ResponseArrives 0;
                     ResponseArrives 1; ResponseArrives 1; ResponseArrives 1]
               (boot initialState)))
  = fresh_result b (Some "gig").
Proof.
  intros b.
  apply (search_reflects_latest_query b (boot initialState) "run" "gig" 1).
  - constructor.
  - reflexivity.
  - reflexivity.
  - lia.
  - vm_compute. auto.
  - vm_compute. auto.
Defined.

End Session.

(** ** The edit-announcement form *)
Section Edit.
Import EditAnnouncementModal.

Ltac submit_unfold :=
  unfold handleSubmit, throw_if, await_rows, set_state, console,
    mbind, mret, Async_bind, Async_ret in *.

(** The update request of the form rewrites the rows whose [id] is the
    announcement's, and no other row. *)
Lemma update_rows_by_id a title content rows :
  Postgrest.update_rows (updateQuery a title content)
    [("title", VStr (Js.trim title)); ("content", VStr (Js.trim content))] rows =
  (λ r : Row,
     if decide (r !! "id" = Some (VStr (id a)))
     then <["content" := VStr (Js.trim content)]> (<["title" := VStr (Js.trim title)]> r)
     else r) <$> rows.
Proof.
  unfold Postgrest.update_rows. apply list_fmap_ext. intros _ r _.
  unfold Postgrest.satisfies. simpl. unfold Postgrest.text.
  destruct (r !! "id") as [[|s|?|?]|] eqn:E; simpl; try done; try (by rewrite decide_False).
  rewrite ?andb_true_r.
  destruct (String.eqb_spec s (id a)) as [->|Hne]; simpl.
  - by rewrite decide_True.
  - rewrite decide_False; [done|congruence].
Qed.

(** The database after the update request of the form has been served. *)
Lemma commit_update a title content srv t :
  Postgrest.outage srv (updateQuery a title content) = None →
  Postgrest.rows_of (Postgrest.commit srv (updateQuery a title content)) t =
  if decide (t = "announcements") then
    (λ r : Row,
       if decide (r !! "id" = Some (VStr (id a)))
       then <["content" := VStr (Js.trim content)]> (<["title" := VStr (Js.trim title)]> r)
       else r) <$> Postgrest.rows_of (Postgrest.db srv) t
  else Postgrest.rows_of (Postgrest.db srv) t.
Proof.
  intros Hup. unfold Postgrest.commit. rewrite Hup. simpl.
  unfold Postgrest.rows_of at 1. case_decide as Ht.
  - subst t. rewrite lookup_insert_eq. simpl. apply update_rows_by_id.
  - by rewrite lookup_insert_ne.
Qed.

(** C9.  Without a selected announcement, without the right to edit it
    (the user is neither its creator nor an admin, or there is no user), or
    with a title or content that is empty once trimmed, no request is sent
    and an error message is set.  A request that is sent is the only one:
    an update of the announcements table that assigns the trimmed title and
    content under the filter [id = announcement.id]; served by the
    reference backend it rewrites title and content of the announcements
    with that id and leaves every other row of the database as it is. *)
Theorem submit_is_guarded b user announcement title content st :
  let w := (run b (handleSubmit user announcement title content) (initial st)).2 in
  (announcement = None ∨
   (∃ a, announcement = Some a ∧
         (may_edit user a = false ∨ Js.trim title = "" ∨ Js.trim content = "")) →
   calls w = [] ∧ ∃ text, error (ui w) = Some text ∧ text ≠ "") ∧
  (∀ q, q ∈ calls w →
     ∃ a, announcement = Some a ∧ may_edit user a = true ∧
          Js.trim title ≠ "" ∧ Js.trim content ≠ "" ∧
          calls w = [q] ∧
          q = updateQuery a title content ∧
          table q = "announcements" ∧
          verb q = Update [("title", VStr (Js.trim title)); ("content", VStr (Js.trim content))] ∧
          filters q = [FEq "id" (id a)] ∧
          ∀ srv t,
            Postgrest.outage srv q = None →
            Postgrest.rows_of (Postgrest.commit srv q) t =
            if decide (t = "announcements") then
              (λ r : Row,
                 if decide (r !! "id" = Some (VStr (id a)))
                 then <["content" := VStr (Js.trim content)]>
                        (<["title" := VStr (Js.trim title)]> r)
                 else r) <$> Postgrest.rows_of (Postgrest.db srv) t
            else Postgrest.rows_of (Postgrest.db srv) t).
Proof.
  intros w. subst w. split.
  - intros [->|(a & -> & Hguard)]; submit_unfold; simpl.
    + split; [done|]. by eexists.
    + destruct (may_edit user a); simpl.
      * destruct Hguard as [?|[->| ->]]; [done| |]; simpl.
        -- split; [done|]. by eexists.
        -- rewrite orb_true_r. split; [done|]. by eexists.
      * split; [done|]. by eexists.
  - intros q Hq. submit_unfold.
    destruct announcement as [a|]; simpl in *; [|by apply elem_of_nil in Hq].
    destruct (may_edit user a) eqn:Hm; simpl in *; [|by apply elem_of_nil in Hq].
    destruct (Js.truthy (Js.trim title)) eqn:Ht; simpl in *; [|by apply elem_of_nil in Hq].
    destruct (Js.truthy (Js.trim content)) eqn:Hc; simpl in *; [|by apply elem_of_nil in Hq].
    exists a.
    assert (∀ s, Js.truthy s = true → s ≠ "") as Hne.
    { intros s Hs ->. discriminate Hs. }
    destruct (Supabase.error (fetch_rows b (updateQuery a title content))); simpl in *.
    all: apply list_elem_of_singleton in Hq; subst q.
    all: repeat split; try done; try (by apply Hne).
    all: intros srv t Hup; by apply commit_update.
Qed.

(** Nobody signed in: nothing is sent.  The author signed in: the title is
    sent without the blanks around it. *)
Lemma submit_is_guarded_witness :
  let b := Postgrest.serve Sample.campus_server in
  calls (run b (handleSubmit None (Some Sample.note) "  Exam weeks "
                  "Library open until midnight") (initial Sample.edit_form)).2 = [] ∧
  calls (run b (handleSubmit (Some Sample.alice) (Some Sample.note) "  Exam weeks "
                  "Library open until midnight") (initial Sample.edit_form)).2
  = [from "announcements"
       |> update [("title", VStr "Exam weeks");
                  ("content", VStr "Library open until midnight")]
       |> eq_ "id" "a-1"].
Proof.
  intros b. split.
  - apply (submit_is_guarded b None (Some Sample.note) "  Exam weeks "
             "Library open until midnight" Sample.edit_form).
    right. exists Sample.note. split; [reflexivity|]. left. reflexivity.
  - destruct (proj2 (submit_is_guarded b (Some Sample.alice) (Some Sample.note)
                       "  Exam weeks " "Library open until midnight" Sample.edit_form)
                    (updateQuery Sample.note "  Exam weeks " "Library open until midnight"))
      as (a & _ & _ & _ & _ & Hcalls & _).
    + vm_compute. left.
    + rewrite Hcalls. reflexivity.
Defined.

End Edit.

(** ** The clubs page *)
Section ClubsPage.
Import Clubs.

Ltac fetch_unfold :=
  unfold fetchData, throw_if, await_rows, set_state, console,
    mbind, mret, Async_bind, Async_ret in *.



End ClubsPage.

(** * Further properties *)

Lemma project_all columns r : "*" ∈ columns → Postgrest.project columns r = r.
Proof. intros H. unfold Postgrest.project. by rewrite bool_decide_true. Qed.

Lemma select_all_sorted db q columns c ascending :
  ordering q = Some (c, ascending) → "*" ∈ columns →
  StronglySorted (Postgrest.row_le c ascending) (Postgrest.select_rows db q columns).
Proof.
  intros Ho Hc. unfold Postgrest.select_rows.
  eapply StronglySorted_fmap; [|by apply capped_sorted, ordered_sorted].
  intros r1 r2. by rewrite !project_all.
Qed.

Lemma filter_all {A} (P : A → Prop) `{!∀ x, Decision (P x)} (l : list A) :
  (∀ x, P x) → filter P l = l.
Proof.
  intros HP. induction l as [|x l IH]; [done|]. by rewrite filter_cons_True, IH.
Qed.

Lemma select_everything db t columns :
  "*" ∈ columns →
  Postgrest.select_rows db (from t |> select columns) columns = Postgrest.rows_of db t.
Proof.
  intros H. unfold Postgrest.select_rows, Postgrest.capped, Postgrest.ordered. simpl.
  rewrite filter_all by done.
  rewrite <- (list_fmap_id (Postgrest.rows_of db t)) at 2.
  apply list_fmap_ext. intros _ r _. by apply project_all.
Qed.

Lemma rows_of_insert (db : Postgrest.Database) t l :
  Postgrest.rows_of (<[t := l]> db) t = l.
Proof. unfold Postgrest.rows_of. by rewrite lookup_insert_eq. Qed.

(** ** Two handlers in flight whose writes commute *)
Section Commute.
Import EventLoop Footprint.
Context {St : Type} (b : Backend) (GA GF : (St → St) → Prop).
Hypothesis commute : ∀ f g s, GA f → GF g → f (g s) = g (f s).
Implicit Types (m : Async St unit) (w : World St).

Lemma advance_rest m w :
  (run b m w).2 = (run b (rest b (advance m w).2) (advance m w).1).2.
Proof.
  revert w. induction m as [a|e|q k IH|q k IH|g k IH|l k IH]; intros w; simpl; auto.
Qed.

Lemma advance_writes G m w : Writes G m → Writes G (rest b (advance m w).2).
Proof.
  intros H. revert w. induction H; intros w; simpl; auto; constructor.
Qed.

(** Handlers never read the state: what they do depends on the responses
    only. *)
Lemma run_ui_ext m : ∀ w1 w2, ui w1 = ui w2 → ui (run b m w1).2 = ui (run b m w2).2.
Proof.
  induction m as [a|e|q k IH|q k IH|g k IH|l k IH]; intros w1 w2 H; simpl; auto.
  apply IH. simpl. by rewrite H.
Qed.

Lemma advance_ui_ext m : ∀ w1 w2, ui w1 = ui w2 →
  (advance m w1).2 = (advance m w2).2 ∧ ui (advance m w1).1 = ui (advance m w2).1.
Proof.
  induction m as [a|e|q k IH|q k IH|g k IH|l k IH]; intros w1 w2 H; simpl; auto.
  apply IH. simpl. by rewrite H.
Qed.

Lemma run_after_write m g : Writes GA m → GF g → ∀ w w0,
  ui w = g (ui w0) → ui (run b m w).2 = g (ui (run b m w0).2).
Proof using commute.
  intros Hm Hg. induction Hm as [a|e|q k Hk IH|q k Hk IH|f k Hf Hk IH|l k Hk IH];
    intros w w0 H; simpl; auto.
  apply IH. simpl. rewrite H. by apply commute.
Qed.

Lemma advance_swap mA mF : Writes GA mA → Writes GF mF → ∀ w,
  (advance mF (run b mA w).2).2 = (advance mF w).2 ∧
  ui (advance mF (run b mA w).2).1 = ui (run b mA (advance mF w).1).2.
Proof using commute.
  intros HA HF. induction HF as [a|e|q k Hk IH|q k Hk IH|g k Hg Hk IH|l k Hk IH];
    intros w; simpl.
  - done.
  - done.
  - split; [done|]. by apply run_ui_ext.
  - split; [done|]. by apply run_ui_ext.
  - destruct (IH (mkWorld (g (ui w)) (calls w) (console_lines w))) as [IH1 IH2].
    rewrite <- IH1, <- IH2.
    apply advance_ui_ext. simpl. symmetry. by apply run_after_write.
  - destruct (IH (mkWorld (ui w) (calls w) (console_lines w ++ [l]))) as [IH1 IH2].
    rewrite <- IH1, <- IH2.
    apply advance_ui_ext. simpl. by apply run_ui_ext.
Qed.

Lemma deliver_ending i (l : Loop St) :
  footprints b GA GF l →
  footprints b GA GF (deliver b i l) ∧ ending b (deliver b i l) = ending b l.
Proof using commute.
  destruct l as [w [|ta [|tf [|]]]]; try done. intros [HA HF].
  destruct i as [|[|i]]; unfold deliver; simpl.
  - destruct ta as [p|]; [|done].
    pose proof (advance_rest (resume b p) w) as Hr.
    pose proof (advance_writes GA (resume b p) w HA) as Hw.
    destruct (advance (resume b p) w) as [w' ta']. simpl in *.
    split; [done|]. unfold ending. simpl. by rewrite Hr.
  - destruct tf as [p|]; [|done].
    pose proof (advance_writes GF (resume b p) w HF) as Hw.
    pose proof (advance_swap (rest b ta) (resume b p) HA HF w) as [Hs1 Hs2].
    pose proof (advance_rest (resume b p) (run b (rest b ta) w).2) as Hr.
    destruct (advance (resume b p) w) as [w' tf']. simpl in *.
    split; [done|]. unfold ending. simpl. f_equal.
    rewrite Hr, Hs1. apply run_ui_ext. by rewrite Hs2.
  - done.
Qed.

Lemma deliveries_ending slots : ∀ l : Loop St,
  footprints b GA GF l →
  footprints b GA GF (foldl (λ l i, deliver b i l) l slots) ∧
  ending b (foldl (λ l i, deliver b i l) l slots) = ending b l.
Proof using commute.
  induction slots as [|i slots IH]; intros l H; simpl; [done|].
  destruct (deliver_ending i l H) as [H1 H2].
  destruct (IH _ H1) as [H3 H4]. split; [done|]. by rewrite H4.
Qed.

Lemma started_ending mA mF st :
  Writes GA mA → Writes GF mF →
  footprints b GA GF (start mF (start mA (boot st))) ∧
  ending b (start mF (start mA (boot st))) =
    Some (ui (run b mF (run b mA (initial st)).2).2).
Proof using commute.
  intros HA HF. unfold start, boot. simpl.
  pose proof (advance_rest mA (initial st)) as Hr.
  pose proof (advance_writes GA mA (initial st) HA) as HwA.
  destruct (advance mA (initial st)) as [w1 ta]. simpl in *.
  pose proof (advance_writes GF mF w1 HF) as HwF.
  pose proof (advance_swap (rest b ta) mF HwA HF w1) as [Hs1 Hs2].
  pose proof (advance_rest mF (run b (rest b ta) w1).2) as Hr2.
  destruct (advance mF w1) as [w2 tf]. simpl in *.
  split; [done|]. unfold ending. simpl. f_equal.
  rewrite Hr, Hr2, Hs1. apply run_ui_ext. by rewrite Hs2.
Qed.

Lemma idle_ending (l : Loop St) :
  idle l → ∀ s, ending b l = Some s → ui (world l) = s.
Proof.
  destruct l as [w [|ta [|tf [|]]]]; try done. intros Hi s.
  unfold idle in Hi. simpl in Hi.
  apply Forall_cons in Hi as [-> Hi]. apply Forall_cons in Hi as [-> _].
  unfold ending. simpl. by intros [= <-].
Qed.

(** Whatever the order in which the responses of the two handlers arrive,
    once both have settled the state is the one reached by running the
    first handler to its end and then the second. *)
Lemma commuting_handlers mA mF st slots :
  Writes GA mA → Writes GF mF →
  let l := foldl (λ l i, deliver b i l) (start mF (start mA (boot st))) slots in
  idle l → ui (world l) = ui (run b mF (run b mA (initial st)).2).2.
Proof using commute.
  intros HA HF l Hidle.
  destruct (started_ending mA mF st HA HF) as [H1 H2].
  destruct (deliveries_ending slots _ H1) as [H3 H4].
  apply idle_ending; [done|]. fold l in H4. by rewrite H4.
Qed.

End Commute.

(** ** The home page *)
Section HomePage.
Import App Home EventLoop Footprint.

Ltac home_unfold :=
  unfold fetchAnnouncements, fetchFeaturedEvents, readInterests, fetchByInterests,
    fetchFallback, throw_if, await_rows, await_row, set_state, console,
    mbind, mret, Async_bind, Async_ret in *.

(** X1.  [fetchAnnouncements] never rejects and always ends with the
    loading flag cleared.  When its request fails it only logs: the
    announcements held before stay (the feed, in contrast, is emptied by a
    failure).  It sends one request and leaves the feed fields and the
    search term alone. *)
Theorem announcements_survive_failure b st :
  let r := run b fetchAnnouncements (initial st) in
  let s := ui r.2 in
  r.1 = Fulfilled tt ∧
  calls r.2 = [announcementsQuery] ∧
  loadingAnnouncements s = false ∧
  announcementsBlock s ≠ Loading ∧
  announcements s =
    match error (fetch_rows b announcementsQuery) with
    | Some _ => announcements st
    | None => default [] (data (fetch_rows b announcementsQuery))
    end ∧
  console_lines r.2 =
    match error (fetch_rows b announcementsQuery) with
    | Some _ => ["Error fetching announcements:"]
    | None => []
    end ∧
  featuredEvents s = featuredEvents st ∧
  loadingFeaturedEvents s = loadingFeaturedEvents st ∧
  searchTerm s = searchTerm st.
Proof.
  intros r s. subst s r. home_unfold. simpl.
  destruct (error (fetch_rows b announcementsQuery)); simpl.
  all: repeat split; try done.
  all: unfold announcementsBlock, block; simpl; by case_match.
Qed.

(** X2.  On the reference backend, when the request does not fail, the
    home page holds at most three announcements, all taken from the
    announcements table, newest first (rows without a creation time
    before the others). *)
Theorem announcements_newest_three srv st :
  let shown := announcements (ui (run (Postgrest.serve srv) fetchAnnouncements (initial st)).2) in
  Postgrest.outage srv announcementsQuery = None →
  shown = Postgrest.select_rows (Postgrest.db srv) announcementsQuery ["*"] ∧
  length shown ≤ 3 ∧
  (∀ r, r ∈ shown → r ∈ Postgrest.rows_of (Postgrest.db srv) "announcements") ∧
  StronglySorted (λ r1 r2 : Row, Postgrest.key_leb (Postgrest.text r2 "created_at")
                                   (Postgrest.text r1 "created_at") = true) shown.
Proof.
  intros shown Hup.
  assert (shown = Postgrest.select_rows (Postgrest.db srv) announcementsQuery ["*"]) as ->.
  { subst shown. home_unfold. simpl. unfold Postgrest.rows_response. rewrite Hup. reflexivity. }
  split; [done|]. split; [by apply select_rows_capped|]. split.
  - intros r (r0 & -> & Hin & _)%select_rows_elem. rewrite project_all; [done|in_list].
  - apply (select_all_sorted _ _ _ "created_at" false); [done|in_list].
Qed.

(** Of the four announcements of the sample board the three newest are
    shown, newest first. *)
Lemma announcements_newest_three_witness :
  (λ r : Row, r !! "id") <$>
    announcements (ui (run (Postgrest.serve Demo.server) fetchAnnouncements
                         (initial initialState)).2)
  = [Some (VStr "a-4"); Some (VStr "a-2"); Some (VStr "a-1")].
Proof.
  destruct (announcements_newest_three Demo.server initialState eq_refl) as [-> _].
  vm_compute. reflexivity.
Defined.

Lemma home_writes_commute f g s : announcement_write f → feed_write g → f (g s) = g (f s).
Proof. intros [[v ->]|[v ->]] [[v' ->]|[v' ->]]; reflexivity. Qed.

Ltac writes_step :=
  first [ apply Writes_ret | apply Writes_throw
        | apply Writes_rows; intros ? | apply Writes_row; intros ?
        | apply Writes_set; [unfold announcement_write, feed_write; eauto|]
        | apply Writes_console ].

Lemma fetchAnnouncements_writes : Writes announcement_write fetchAnnouncements.
Proof.
  home_unfold. simpl.
  repeat (first [writes_step | case_match]; simpl).
Qed.

Lemma fetchFeaturedEvents_writes user today :
  Writes feed_write (fetchFeaturedEvents user today).
Proof.
  home_unfold. simpl.
  destruct (logged_in_id user); simpl.
  all: repeat (first [writes_step | case_match]; simpl).
Qed.

(** X3.  The two fetches started together on mount do not disturb each
    other: in whatever order their responses arrive, once both have
    settled the state is the one reached by running [fetchAnnouncements]
    to its end and then [fetchFeaturedEvents]. *)
Theorem mount_fetches_independent b user today st slots :
  let l := arrivals b slots (mount user today (boot st)) in
  idle l →
  ui (world l) =
  ui (run b (fetchFeaturedEvents user today) (run b fetchAnnouncements (initial st)).2).2.
Proof.
  intros l Hidle.
  apply (commuting_handlers b announcement_write feed_write home_writes_commute
           fetchAnnouncements (fetchFeaturedEvents user today) st slots);
    auto using fetchAnnouncements_writes, fetchFeaturedEvents_writes.
Qed.

(** The announcements response arrives between the responses of the
    feed. *)
Lemma mount_fetches_independent_witness :
  let b := Postgrest.serve Demo.server in
  let s := ui (world (arrivals b [1; 1; 0; 1]
                        (mount (Some Sample.alice) Sample.today (boot initialState)))) in
  s = ui (run b (fetchFeaturedEvents (Some Sample.alice) Sample.today)
            (run b fetchAnnouncements (initial initialState)).2).2 ∧
  length (announcements s) = 3 ∧ length (featuredEvents s) = 1.
Proof.
  intros b s.
  assert (s = ui (run b (fetchFeaturedEvents (Some Sample.alice) Sample.today)
                    (run b fetchAnnouncements (initial initialState)).2).2) as Hs.
  { apply (mount_fetches_independent b (Some Sample.alice) Sample.today initialState
             [1; 1; 0; 1]).
    vm_compute. repeat constructor. }
  split; [exact Hs|]. rewrite Hs. split; vm_compute; reflexivity.
Defined.

End HomePage.

(** ** The clubs page *)
Section ClubsDirectory.
Import Clubs ClubsPage ClubsSync Page.

Ltac page_unfold :=
  unfold Page.perform, handleJoin, handleLeave, handleDeleteClub, Page.raise_if,
    write, log, alert, confirm, navigate, rows, Action.put, Action.perform_effect,
    mbind, mret, Action_bind, Action_ret in *.

Ltac fetch_unfold :=
  unfold fetchData, throw_if, await_rows, set_state, console,
    mbind, mret, Async_bind, Async_ret in *.

Ltac step_cases H :=
  repeat (apply elem_of_cons in H as [H|H]; [first [discriminate H | congruence]|]);
  by apply elem_of_nil in H.

(** X4.  Joining and leaving never reject and always clear the spinner.
    One write is sent.  When it succeeds the club id is added to (removed
    from) the membership set; when it fails the set stays as it is and the
    user is told through an alert. *)
Theorem membership_action_outcome {S} (svc : Service S) u clubId st s :
  (let answer := (Page.writes svc (joinRequest clubId u) s).1 in
   let r := Page.perform svc (handleJoin (Some u) clubId) st s in
   r.1.1 = Fulfilled tt ∧
   r.1.2 =
     setActionLoadingClubId None
       (match Supabase.error answer with
        | None => setMemberships ({[ clubId ]} ∪ memberships st) st
        | Some _ => st
        end) ∧
   steps r.2 =
     Wrote (joinRequest clubId u) ::
     match Supabase.error answer with
     | None => []
     | Some e => [Logged "Error joining club:"; Alerted (error_text "Failed to join club" e)]
     end) ∧
  (let answer := (Page.writes svc (leaveRequest clubId u) s).1 in
   let r := Page.perform svc (handleLeave (Some u) clubId) st s in
   r.1.1 = Fulfilled tt ∧
   r.1.2 =
     setActionLoadingClubId None
       (match Supabase.error answer with
        | None => setMemberships (memberships st ∖ {[ clubId ]}) st
        | Some _ => st
        end) ∧
   steps r.2 =
     Wrote (leaveRequest clubId u) ::
     match Supabase.error answer with
     | None => []
     | Some e => [Logged "Error leaving club:"; Alerted (error_text "Failed to leave club" e)]
     end).
Proof.
  split.
  - intros answer r. subst answer r. page_unfold. simpl.
    destruct (Page.writes svc (joinRequest clubId u) s) as [[d [e|]] s']; simpl; done.
  - intros answer r. subst answer r. page_unfold. simpl.
    destruct (Page.writes svc (leaveRequest clubId u) s) as [[d [e|]] s']; simpl; done.
Qed.

Lemma elem_of_stored_memberships db u c :
  c ∈ stored_memberships db u ↔
  ∃ r, r ∈ Postgrest.rows_of db "club_memberships" ∧
       Postgrest.text r "user_id" = Some (user_id u) ∧
       Postgrest.text r "club_id" = Some c.
Proof.
  unfold stored_memberships, club_ids, Postgrest.select_rows. simpl.
  rewrite elem_of_list_to_set, list_elem_of_omap. split.
  - intros (r & (r0 & -> & Hr0)%list_elem_of_fmap & Hc).
    apply list_elem_of_filter in Hr0 as [Hs Hin].
    exists r0. split; [done|].
    unfold Postgrest.satisfies in Hs. simpl in Hs.
    destruct (Postgrest.text r0 "user_id") as [x|] eqn:Eu; [|done].
    rewrite andb_true_r in Hs. apply String.eqb_eq in Hs as ->. split; [done|].
    pose proof (project_text ["club_id"] r0 "club_id") as Hp.
    unfold Postgrest.text in Hp at 1.
    destruct (Postgrest.project ["club_id"] r0 !! "club_id") as [[]|]; try done.
    rewrite <- Hp; [congruence|in_list].
  - intros (r & Hin & Hu & Hc). exists (Postgrest.project ["club_id"] r). split.
    + apply list_elem_of_fmap. exists r. split; [done|].
      apply list_elem_of_filter. split; [|done].
      unfold Postgrest.satisfies. simpl. rewrite Hu. by rewrite String.eqb_refl.
    + pose proof (project_text ["club_id"] r "club_id") as Hp.
      rewrite Hc in Hp. apply text_Some in Hp; [|in_list]. by rewrite Hp.
Qed.

(** X5.  On the reference backend the membership set of the page stays
    in step with the memberships table: if it holds the club ids the
    table has for the user, it still does after a join and after a leave,
    whether the write was accepted or refused. *)
Theorem memberships_stay_synced answers srv u clubId st :
  synced srv u st →
  (let r := Page.perform (PostgrestWrites.service answers) (handleJoin (Some u) clubId) st srv in
   synced (server r.2) u r.1.2) ∧
  (let r := Page.perform (PostgrestWrites.service answers) (handleLeave (Some u) clubId) st srv in
   synced (server r.2) u r.1.2).
Proof.
  unfold synced. intros Hs. split.
  - page_unfold. simpl. unfold PostgrestWrites.commit.
    destruct (PostgrestWrites.refused srv (joinRequest clubId u)); simpl; [done|].
    rewrite Hs. apply set_eq. intros c.
    rewrite elem_of_union, elem_of_singleton, !elem_of_stored_memberships.
    setoid_rewrite rows_of_insert. split.
    + intros [->|(r & Hin & Hu & Hc)].
      * eexists. split; [apply elem_of_app; right; apply list_elem_of_here|].
        split; reflexivity.
      * exists r. split; [|done]. apply elem_of_app. by left.
    + intros (r & [Hin|Hin%list_elem_of_singleton]%elem_of_app & Hu & Hc).
      * right. eauto.
      * left. subst r. vm_compute in Hc. congruence.
  - page_unfold. simpl. unfold PostgrestWrites.commit.
    destruct (PostgrestWrites.refused srv (leaveRequest clubId u)); simpl; [done|].
    rewrite Hs. apply set_eq. intros c.
    rewrite elem_of_difference, elem_of_singleton, !elem_of_stored_memberships.
    setoid_rewrite rows_of_insert. split.
    + intros [(r & Hin & Hu & Hc) Hne].
      exists r. split; [|done]. apply list_elem_of_filter. split; [|done].
      simpl. rewrite Hu, Hc. apply andb_false_iff. left. by apply String.eqb_neq.
    + intros (r & [Hf Hin]%list_elem_of_filter & Hu & Hc).
      split; [eauto|]. intros ->. simpl in Hf.
      rewrite Hu, Hc, !String.eqb_refl in Hf. done.
Qed.

(** Alice, a member of the chess club, joins the film club and then
    leaves the chess club: page and table agree after each step. *)
Lemma memberships_stay_synced_witness :
  let svc := PostgrestWrites.service Demo.yes in
  let r1 := Page.perform svc (handleJoin (Some Sample.alice) "c-film") Demo.alice_page Demo.site in
  let r2 := Page.perform svc (handleLeave (Some Sample.alice) "c-chess") r1.1.2 (server r1.2) in
  synced (server r1.2) Sample.alice r1.1.2 ∧
  synced (server r2.2) Sample.alice r2.1.2 ∧
  memberships r2.1.2 = {[ "c-film" ]}.
Proof.
  intros svc r1 r2.
  assert (synced (server r1.2) Sample.alice r1.1.2) as H1.
  { apply (memberships_stay_synced Demo.yes Demo.site Sample.alice "c-film" Demo.alice_page).
    unfold synced. vm_compute. reflexivity. }
  split; [exact H1|]. split.
  - apply (memberships_stay_synced Demo.yes (server r1.2) Sample.alice "c-chess" r1.1.2).
    exact H1.
  - vm_compute. reflexivity.
Defined.

(** X6.  On the reference backend a fetch that meets no outage loads the
    whole clubs table and, for a logged-in user, exactly the club ids the
    memberships table holds for that user; the error is cleared and the
    loading flag too. *)
Theorem fetch_loads_tables srv u closure_clubs st :
  logged_in_id (Some u) = Some (user_id u) →
  (∀ q, Postgrest.outage srv q = None) →
  let s := ui (run (Postgrest.serve srv) (fetchData (Some u) closure_clubs) (initial st)).2 in
  clubs s = Postgrest.rows_of (Postgrest.db srv) "clubs" ∧
  memberships s = stored_memberships (Postgrest.db srv) u ∧
  error s = None ∧
  loading s = false.
Proof.
  intros Hu Hup s. subst s. fetch_unfold. rewrite Hu.
  destruct closure_clubs as [|c0 cs]; simpl.
  all: repeat (progress (unfold Postgrest.rows_response; rewrite ?Hup; simpl)).
  all: repeat split; try done.
  all: apply (select_everything _ "clubs" ["*"; "created_by"]); in_list.
Qed.

Lemma fetch_loads_tables_witness :
  let s := ui (run (Postgrest.serve Demo.server) (fetchData (Some Sample.alice) [])
                 (initial initialState)).2 in
  length (clubs s) = 2 ∧ memberships s = {[ "c-chess" ]}.
Proof.
  intros s.
  destruct (fetch_loads_tables Demo.server Sample.alice [] initialState) as (Hc & Hm & _).
  - reflexivity.
  - reflexivity.
  - split.
    + fold s in Hc. rewrite Hc. reflexivity.
    + fold s in Hm. rewrite Hm. vm_compute. reflexivity.
Defined.

(** X7.  [handleDeleteClub] never writes without a user or without the
    confirm dialog having been accepted, and the only write it can send is
    the delete of that club.  When the delete fails nothing is refetched:
    the state is as before (spinner cleared) and the user gets an alert. *)
Theorem delete_is_guarded {S} (svc : Service S) user closure_clubs clubId st s :
  let r := Page.perform svc (handleDeleteClub user closure_clubs clubId) st s in
  (∀ m, Wrote m ∈ steps r.2 →
        is_Some user ∧ answers svc confirm_delete = true ∧ m = deleteRequest clubId) ∧
  (is_Some user → answers svc confirm_delete = true →
   ∀ e, Supabase.error (Page.writes svc (deleteRequest clubId) s).1 = Some e →
        r = (Fulfilled tt, setActionLoadingClubId None st,
             mkSession (Page.writes svc (deleteRequest clubId) s).2
               [Asked confirm_delete; Wrote (deleteRequest clubId);
                Logged "Error deleting club:";
                Alerted (error_text "Failed to delete club" e)])).
Proof.
  intros r. subst r. split.
  - intros m Hm. page_unfold. destruct user as [u|]; simpl in *; [|by apply elem_of_nil in Hm].
    destruct (answers svc confirm_delete) eqn:Hyes; simpl in *.
    2: { apply list_elem_of_singleton in Hm. discriminate Hm. }
    split; [done|]. split; [done|].
    destruct (Page.writes svc (deleteRequest clubId) s) as [[d [e|]] s'] eqn:Hw; simpl in *.
    + step_cases Hm.
    + fetch_unfold. destruct closure_clubs; simpl in *.
      all: repeat (case_match; simpl in *).
      all: step_cases Hm.
  - intros [u ->] Hyes e He. page_unfold. simpl. rewrite Hyes. simpl.
    destruct (Page.writes svc (deleteRequest clubId) s) as [[d e'] s']. simpl in *. subst e'.
    reflexivity.
Qed.

(** Declined, nothing is written; accepted but refused by the backend,
    the clubs stay on the page. *)
Lemma delete_is_guarded_witness :
  steps (Page.perform (PostgrestWrites.service Demo.no)
           (handleDeleteClub (Some Sample.alice) [] "c-film") Demo.alice_page Demo.site).2
    = [Asked confirm_delete] ∧
  clubs (Page.perform (PostgrestWrites.service Demo.yes)
           (handleDeleteClub (Some Sample.alice) [] "c-film") Demo.alice_page
           (Demo.locked_site "clubs")).1.2
    = clubs Demo.alice_page.
Proof.
  split; [reflexivity|].
  destruct (delete_is_guarded (PostgrestWrites.service Demo.yes) (Some Sample.alice) []
              "c-film" Demo.alice_page (Demo.locked_site "clubs")) as [_ H].
  rewrite (H (ltac:(by eexists)) eq_refl (mkError "permission denied" false) eq_refl).
  reflexivity.
Defined.

(** X8.  On the reference backend, a delete that is confirmed and
    accepted, followed by a refetch that meets no outage, leaves on the
    page exactly the clubs of the table other than the deleted one. *)
Theorem deleted_club_disappears answers srv u closure_clubs clubId st :
  answers confirm_delete = true →
  PostgrestWrites.refused srv (deleteRequest clubId) = None →
  (∀ q, Postgrest.outage (PostgrestWrites.store srv) q = None) →
  let r := Page.perform (PostgrestWrites.service answers)
             (handleDeleteClub (Some u) closure_clubs clubId) st srv in
  clubs r.1.2 =
    filter (λ c, Postgrest.text c "id" ≠ Some clubId)
           (Postgrest.rows_of (Postgrest.db (PostgrestWrites.store srv)) "clubs") ∧
  error r.1.2 = None ∧
  actionLoadingClubId r.1.2 = None ∧
  loading r.1.2 = false.
Proof.
  intros Hyes Hok Hup r. subst r. page_unfold. simpl. rewrite Hyes. simpl.
  unfold PostgrestWrites.commit. rewrite Hok. simpl. fetch_unfold.
  unfold logged_in_id.
  destruct closure_clubs as [|c0 cs]; simpl.
  all: repeat (progress (unfold Postgrest.rows_response; simpl; rewrite ?Hup; simpl)).
  all: destruct (Js.truthy (user_id u)); simpl.
  all: repeat (progress (unfold Postgrest.rows_response; simpl; rewrite ?Hup; simpl)).
  all: repeat split; try done.
  all: rewrite (select_everything _ "clubs" ["*"; "created_by"]) by in_list.
  all: rewrite rows_of_insert.
  all: apply list_filter_iff; intros r; simpl.
  all: unfold Postgrest.text; destruct (r !! "id") as [[|i| |]|]; simpl; try done.
  all: rewrite andb_true_r; destruct (String.eqb_spec i clubId); split; congruence.
Qed.

Lemma deleted_club_disappears_witness :
  (λ c : Row, c !! "id") <$>
    clubs (Page.perform (PostgrestWrites.service Demo.yes)
             (handleDeleteClub (Some Sample.alice) [] "c-film") Demo.alice_page Demo.site).1.2
  = [Some (VStr "c-chess")].
Proof.
  destruct (deleted_club_disappears Demo.yes Demo.site Sample.alice [] "c-film"
              Demo.alice_page eq_refl eq_refl (λ _, eq_refl)) as [-> _].
  vm_compute. reflexivity.
Defined.



(** X10.  After a join that succeeded, every card of that club offers
    the Leave button; after a leave that succeeded, the Join button. *)
Theorem button_follows_action {S} (svc : Service S) u clubId st s card :
  card !! "id" = Some (VStr clubId) →
  (Supabase.error (Page.writes svc (joinRequest clubId u) s).1 = None →
   card ∈ clubsWithMembership (Page.perform svc (handleJoin (Some u) clubId) st s).1.2 →
   memberButton (Some u) card = LeaveButton) ∧
  (Supabase.error (Page.writes svc (leaveRequest clubId u) s).1 = None →
   card ∈ clubsWithMembership (Page.perform svc (handleLeave (Some u) clubId) st s).1.2 →
   memberButton (Some u) card = JoinButton).
Proof.
  intros Hid. split.
  - intros Hok Hcard. page_unfold. simpl in Hcard.
    destruct (Page.writes svc (joinRequest clubId u) s) as [[d e] s']. simpl in *. subst e.
    simpl in Hcard. unfold clubsWithMembership in Hcard. simpl in Hcard.
    apply list_elem_of_fmap in Hcard as (club & -> & Hin).
    rewrite lookup_insert_ne in Hid by done.
    unfold memberButton. rewrite lookup_insert_eq. unfold is_member. rewrite Hid.
    rewrite bool_decide_true; [done|]. apply elem_of_union. left. by apply elem_of_singleton.
  - intros Hok Hcard. page_unfold. simpl in Hcard.
    destruct (Page.writes svc (leaveRequest clubId u) s) as [[d e] s']. simpl in *. subst e.
    simpl in Hcard. unfold clubsWithMembership in Hcard. simpl in Hcard.
    apply list_elem_of_fmap in Hcard as (club & -> & Hin).
    rewrite lookup_insert_ne in Hid by done.
    unfold memberButton. rewrite lookup_insert_eq. unfold is_member. rewrite Hid.
    rewrite bool_decide_false; [done|].
    intros [_ Hne]%elem_of_difference. apply Hne. by apply elem_of_singleton.
Qed.

Lemma button_follows_action_witness :
  let svc := PostgrestWrites.service Demo.yes in
  memberButton (Some Sample.alice)
    (<["is_member" := VBool true]> (Demo.club "c-film" "Film club" "u-alice"))
  = LeaveButton.
Proof.
  intros svc.
  apply (button_follows_action svc Sample.alice "c-film" Demo.alice_page Demo.site).
  - reflexivity.
  - reflexivity.
  - vm_compute. right. left.
Defined.

End ClubsDirectory.

(** ** Trimming *)
Section Trim.

Lemma string_app_cons c s t : String c s +:+ t = String c (s +:+ t).
Proof. reflexivity. Qed.

Lemma string_app_nil t : "" +:+ t = t.
Proof. reflexivity. Qed.

Lemma rev_app_rev_app s : ∀ t u, String.rev_app (String.rev_app s t) u = String.rev_app t (s +:+ u).
Proof.
  induction s as [|c s IH]; intros t u; simpl; [done|].
  rewrite IH. reflexivity.
Qed.

Lemma string_app_empty s : s +:+ "" = s.
Proof. induction s as [|c s IH]; [done|]. by rewrite string_app_cons, IH. Qed.

Lemma string_rev_involutive s : String.rev (String.rev s) = s.
Proof. unfold String.rev. rewrite rev_app_rev_app. simpl. apply string_app_empty. Qed.

Lemma trimStart_idemp s : Js.trimStart (Js.trimStart s) = Js.trimStart s.
Proof.
  induction s as [|c s IH]; simpl; [done|].
  destruct (Js.is_whitespace c) eqn:E; [done|]. simpl. by rewrite E.
Qed.

Lemma trimEnd_idemp s : Js.trimEnd (Js.trimEnd s) = Js.trimEnd s.
Proof.
  unfold Js.trimEnd. by rewrite string_rev_involutive, trimStart_idemp.
Qed.

(** Trimming the start of a string that ends in a non-blank character
    leaves a string that ends in that character. *)
Lemma trimStart_snoc s c :
  Js.is_whitespace c = false →
  ∃ t, Js.trimStart (s +:+ String c "") = t +:+ String c "".
Proof.
  intros Hc. induction s as [|d s IH].
  - rewrite string_app_nil. simpl. rewrite Hc. by exists "".
  - rewrite string_app_cons. simpl.
    destruct (Js.is_whitespace d); [done|]. by exists (String d s).
Qed.

Lemma rev_app_spec s : ∀ t, String.rev_app s t = String.rev s +:+ t.
Proof.
  unfold String.rev.
  induction s as [|c s IH]; intros t; simpl; [done|].
  rewrite (IH (String c t)), (IH (String c "")).
  generalize (String.rev_app s ""). intros r.
  induction r as [|d r IHr]; [done|]. by rewrite !string_app_cons, IHr.
Qed.

Lemma string_rev_cons c s : String.rev (String c s) = String.rev s +:+ String c "".
Proof. unfold String.rev at 1. simpl. apply rev_app_spec. Qed.

Lemma string_rev_snoc s c : String.rev (s +:+ String c "") = String c (String.rev s).
Proof.
  rewrite <- (string_rev_involutive (String c (String.rev s))).
  rewrite string_rev_cons, string_rev_involutive. reflexivity.
Qed.

Lemma trimEnd_keeps_head c s :
  Js.is_whitespace c = false → ∃ t, Js.trimEnd (String c s) = String c t.
Proof.
  intros Hc. unfold Js.trimEnd. rewrite string_rev_cons.
  destruct (trimStart_snoc (String.rev s) c Hc) as [t ->].
  rewrite string_rev_snoc. eauto.
Qed.

Lemma trimStart_head s :
  Js.trimStart s = "" ∨ ∃ c t, Js.trimStart s = String c t ∧ Js.is_whitespace c = false.
Proof.
  induction s as [|c s IH]; simpl; [by left|].
  destruct (Js.is_whitespace c) eqn:E; [done|]. right. eauto.
Qed.

Lemma trim_idemp s : Js.trim (Js.trim s) = Js.trim s.
Proof.
  unfold Js.trim.
  destruct (trimStart_head s) as [->|(c & t & -> & Hc)]; [done|].
  destruct (trimEnd_keeps_head c t Hc) as [t' Ht].
  rewrite Ht. simpl. rewrite Hc. rewrite <- Ht. apply trimEnd_idemp.
Qed.

End Trim.

(** ** The edit form *)
Section EditFormProofs.
Import EditAnnouncementModal EditForm.

Ltac submit_unfold :=
  unfold submit, handleSubmit, throw_if, await_rows, set_state, console,
    mbind, mret, Async_bind, Async_ret in *.

(** X11.  Submitting the form never rejects and never changes the text
    typed into it.  The parent is told to close the form only when the
    update was sent and succeeded; when nothing is sent, or the update
    fails, the form stays open with an error message. *)
Theorem submit_closes_on_success_only b user announcement s :
  let r := submit b user announcement s in
  r.1 = Fulfilled tt ∧
  st_title (ui r.2) = st_title s ∧
  st_content (ui r.2) = st_content s ∧
  (calls r.2 = [] →
     onClose_calls (ui r.2) = onClose_calls s ∧ loading (ui r.2) = loading s ∧
     is_Some (error (ui r.2))) ∧
  (∀ q, q ∈ calls r.2 →
     loading (ui r.2) = false ∧
     match Supabase.error (fetch_rows b q) with
     | None => onClose_calls (ui r.2) = S (onClose_calls s) ∧ error (ui r.2) = None
     | Some e =>
         onClose_calls (ui r.2) = onClose_calls s ∧
         error (ui r.2) = Some (error_text "Failed to update announcement." e)
     end).
Proof.
  intros r. subst r. submit_unfold.
  destruct announcement as [a|]; simpl.
  2: { split_and!; try done; try (by eauto). intros q Hq. by apply elem_of_nil in Hq. }
  destruct (may_edit user a); simpl.
  2: { split_and!; try done; try (by eauto). intros q Hq. by apply elem_of_nil in Hq. }
  destruct (negb (Js.truthy (Js.trim (st_title s))) || negb (Js.truthy (Js.trim (st_content s))));
    simpl.
  { split_and!; try done; try (by eauto). intros q Hq. by apply elem_of_nil in Hq. }
  destruct (Supabase.error (fetch_rows b (updateQuery a (st_title s) (st_content s))))
    as [e|] eqn:He; simpl.
  all: split_and!; try done.
  all: intros q Hq; apply list_elem_of_singleton in Hq; subst q; rewrite He; done.
Qed.

Lemma submit_closes_on_success_only_witness :
  let b := Postgrest.serve Sample.campus_server in
  onClose_calls (ui (submit b (Some Sample.alice) (Some Sample.note) Sample.edit_form).2) = 1 ∧
  onClose_calls (ui (submit b None (Some Sample.note) Sample.edit_form).2) = 0.
Proof.
  intros b. split.
  - destruct (submit_closes_on_success_only b (Some Sample.alice) (Some Sample.note)
                Sample.edit_form) as (_ & _ & _ & _ & H).
    destruct (H (updateQuery Sample.note "  Exam weeks " "Library open until midnight"))
      as [_ Hq].
    + vm_compute. left.
    + exact (proj1 Hq).
  - destruct (submit_closes_on_success_only b None (Some Sample.note) Sample.edit_form)
      as (_ & _ & _ & H & _).
    destruct H as [Hc _]; [reflexivity|]. exact Hc.
Defined.

(** X12.  An announcement whose title and content are trimmed texts (as
    this form writes them) and that is opened and saved without a change
    is sent back as it is stored: the update assigns the stored title and
    content, and on the reference backend leaves a table that holds them
    unchanged. *)
Theorem resave_sends_what_is_stored b user a t0 c0 s :
  title a = Js.trim t0 →
  content a = Js.trim c0 →
  let r := submit b user (Some a) (prefill (Some a) s) in
  ∀ q, q ∈ calls r.2 →
    q = (from "announcements"
           |> update [("title", VStr (title a)); ("content", VStr (content a))]
           |> eq_ "id" (id a)) ∧
    ∀ rows : list Row,
      (∀ row, row ∈ rows → row !! "id" = Some (VStr (id a)) →
              row !! "title" = Some (VStr (title a)) ∧
              row !! "content" = Some (VStr (content a))) →
      Postgrest.update_rows q [("title", VStr (title a)); ("content", VStr (content a))] rows
      = rows.
Proof.
  intros Ht Hc r q Hq. subst r.
  assert (q = updateQuery a (title a) (content a)) as ->.
  { submit_unfold. simpl in Hq.
    repeat (case_match; simpl in *; try (by apply elem_of_nil in Hq)).
    all: by apply list_elem_of_singleton in Hq. }
  assert (Js.trim (title a) = title a) as Et by (rewrite Ht; apply trim_idemp).
  assert (Js.trim (content a) = content a) as Ec by (rewrite Hc; apply trim_idemp).
  split.
  - unfold updateQuery. by rewrite Et, Ec.
  - intros rows Hrows.
    rewrite <- (list_fmap_id rows) at 2.
    unfold Postgrest.update_rows. apply list_fmap_ext. intros i row Hi.
    apply list_elem_of_lookup_2 in Hi.
    unfold Postgrest.satisfies. simpl. unfold Postgrest.text.
    destruct (row !! "id") as [[|x| |]|] eqn:E; simpl; try done.
    rewrite andb_true_r. destruct (String.eqb_spec x (id a)) as [->|]; [|done].
    destruct (Hrows row Hi E) as [H1 H2].
    unfold Postgrest.assign. simpl.
    rewrite (insert_id row "title"); [|done]. by rewrite insert_id.
Qed.

Lemma resave_sends_what_is_stored_witness :
  let b := Postgrest.serve Sample.campus_server in
  let form := prefill (Some Sample.note) Sample.edit_form in
  updateQuery Sample.note (st_title form) (st_content form)
  = (from "announcements"
       |> update [("title", VStr "Exam week"); ("content", VStr "Library open late")]
       |> eq_ "id" "a-1").
Proof.
  intros b form.
  apply (resave_sends_what_is_stored b (Some Sample.alice) Sample.note
           "Exam week " " Library open late" Sample.edit_form).
  - reflexivity.
  - reflexivity.
  - vm_compute. left.
Defined.

End EditFormProofs.

(** ** What the search page shows *)
Section SearchView.
Import SearchPage EventLoop SearchSession.

Ltac search_unfold :=
  unfold search, performSearch, throw_if, await_rows, set_state, console,
    mbind, mret, Async_bind, Async_ret in *.

(** X13.  After a search in which no request failed the page shows
    neither the searching line nor an error line; it shows "No results
    found" exactly when all three responses carried no rows, and the rows
    of the three responses otherwise. *)
Theorem successful_search_view b q st :
  Js.truthy q = true →
  succeeds b q →
  let t := ilike_pattern q in
  let es := default [] (data (fetch_rows b (eventsQuery t))) in
  let cs := default [] (data (fetch_rows b (clubsQuery t))) in
  let ans := default [] (data (fetch_rows b (announcementsQuery t))) in
  render (ui (search b (Some q) st)) =
  mkView false None
    (Some (if bool_decide (es = [] ∧ cs = [] ∧ ans = [])
           then NoResultsFound else Sections es cs ans)).
Proof.
  intros Hq (H1 & H2 & H3) t es cs ans. subst t es cs ans.
  rewrite (search_run b q st Hq). cbv zeta. rewrite H1, H2, H3.
  unfold render. simpl.
  destruct (default [] (data (fetch_rows b (eventsQuery (ilike_pattern q))))),
    (default [] (data (fetch_rows b (clubsQuery (ilike_pattern q))))),
    (default [] (data (fetch_rows b (announcementsQuery (ilike_pattern q))))); simpl.
  all: try rewrite bool_decide_true by done; try done.
  all: rewrite bool_decide_false; [done|]; intros (? & ? & ?); done.
Qed.

Lemma successful_search_view_witness :
  let b := Postgrest.serve Sample.campus_server in
  render (ui (search b (Some "zebra") initialState)) = mkView false None (Some NoResultsFound) ∧
  ∃ es, render (ui (search b (Some "run") initialState))
        = mkView false None (Some (Sections es [] [])).
Proof.
  intros b. split.
  - rewrite (successful_search_view b "zebra" initialState); [reflexivity|reflexivity|].
    vm_compute. auto.
  - exists (default [] (data (fetch_rows b (eventsQuery (ilike_pattern "run"))))).
    rewrite (successful_search_view b "run" initialState); [|reflexivity|].
    + vm_compute. reflexivity.
    + vm_compute. auto.
Defined.

(** X14.  As soon as the query changes to a non-empty one the page shows
    the searching line and nothing else, whatever it showed before; it
    still does after the first and after the second response of that
    search, when they carry no error. *)
Theorem searching_hides_results b l q k :
  Js.truthy q = true →
  let started := step b l (QueryChanged (Some q)) in
  render (ui (world started)) = mkView true None None ∧
  (succeeds b q → k ≤ 2 →
   render (ui (world (exec b (replicate k (ResponseArrives (length (inflight l)))) started)))
   = mkView true None None).
Proof.
  intros Hq started. subst started. split.
  - simpl. unfold start, performSearch. rewrite Hq. search_unfold. simpl. reflexivity.
  - intros (H1 & H2 & H3) Hk. destruct l as [w ts]. simpl.
    assert (k = 0 ∨ k = 1 ∨ k = 2) as [->|[->| ->]] by lia.
    all: unfold exec; simpl; unfold performSearch; rewrite Hq; search_unfold; simpl.
    all: repeat (first [ rewrite start_inflight | rewrite deliver_at ]; simpl;
                 rewrite ?H1, ?H2, ?H3; simpl).
    all: reflexivity.
Qed.

Lemma searching_hides_results_witness :
  let b := Postgrest.serve Sample.campus_server in
  let shown := exec b [QueryChanged (Some "run"); ResponseArrives 0; ResponseArrives 0;
                       ResponseArrives 0] (boot initialState) in
  render (ui (world shown)) ≠ mkView true None None ∧
  render (ui (world (exec b [ResponseArrives 1; ResponseArrives 1]
                       (step b shown (QueryChanged (Some "gig"))))))
  = mkView true None None.
Proof.
  intros b shown. split; [by vm_compute|].
  apply (searching_hides_results b shown "gig" 2).
  - reflexivity.
  - vm_compute. auto.
  - lia.
Defined.

End SearchView.

(** ** Refetching the directory *)
Section ClubsRefetch.
Import Clubs ClubsPage EventLoop.

Ltac fetch_unfold' :=
  unfold fetchData, throw_if, await_rows, set_state, console,
    mbind, mret, Async_bind, Async_ret in *.

(** X16.  While a refetch is in flight the page keeps showing the
    directory it showed: whatever [clubs] value the memoised callback
    closed over, the loading line is rendered for a page without clubs
    only.  ([k] is the number of responses that have arrived.) *)
Theorem refetch_keeps_directory b user closure_clubs st k :
  clubs st ≠ [] →
  Js.truthy_opt (Clubs.error st) = false →
  let l := Nat.iter k (deliver b 0) (start (fetchData user closure_clubs) (boot st)) in
  inflight l = [None] ∨
  render (ui (world l)) = Directory (clubsWithMembership st).
Proof.
  intros Hclubs Herr l. subst l.
  assert (∀ flag, render (setLoading flag st) = Directory (clubsWithMembership st)) as Hshow.
  { intros flag. unfold render. simpl. rewrite bool_decide_false by done.
    rewrite andb_false_r. destruct (Clubs.error st) as [e|]; [|done].
    simpl in Herr. by rewrite Herr. }
  assert (render st = Directory (clubsWithMembership st)) as Hshow0.
  { specialize (Hshow (loading st)). by destruct st. }
  assert (∀ l : Loop State, inflight l = [None] → ∀ n, inflight (Nat.iter n (deliver b 0) l) = [None])
    as Hsettled.
  { intros l Hl n. induction n as [|n IH]; [done|].
    rewrite Nat.iter_succ. generalize dependent (Nat.iter n (deliver b 0) l).
    intros l' Hl'. unfold deliver. by rewrite Hl'. }
  destruct k as [|[|k]].
  - right. unfold start, boot. fetch_unfold'. destruct closure_clubs; simpl; [apply Hshow|done].
  - unfold start, boot, deliver. fetch_unfold'.
    destruct closure_clubs; simpl.
    all: destruct (Supabase.error (fetch_rows b clubsQuery)); simpl; [by left|].
    all: destruct (logged_in_id user); simpl; [right|by left].
    all: first [apply Hshow | done].
  - left. rewrite !Nat.iter_succ_r. apply Hsettled.
    unfold start, boot, deliver. fetch_unfold'.
    destruct closure_clubs; simpl.
    all: destruct (Supabase.error (fetch_rows b clubsQuery)); simpl; [done|].
    all: destruct (logged_in_id user); simpl; [|done].
    all: destruct (Supabase.error (fetch_rows b (membershipsQuery _))); simpl; done.
Qed.


Lemma refetch_keeps_directory_witness :
  let b := Postgrest.serve Demo.server in
  let l := Nat.iter 1 (deliver b 0)
             (start (fetchData (Some Sample.alice) []) (boot Demo.alice_page)) in
  inflight l = [None] ∨
  render (ui (world l)) = Directory (clubsWithMembership Demo.alice_page).
Proof.
  intros b l.
  apply (refetch_keeps_directory b (Some Sample.alice) [] Demo.alice_page 1).
  - vm_compute. discriminate.
  - reflexivity.
Defined.

End ClubsRefetch.

(** ** From the search box to the search page *)
Section UrlProofs.
Import Url.

Ltac each_unit c :=
  destruct c as [[] [] [] [] [] [] [] []].

Lemma list_ascii_app (a b : string) :
  list_ascii_of_string (a +:+ b) = list_ascii_of_string a ++ list_ascii_of_string b.
Proof. induction a as [|c a IH]; [done|]. cbn. by rewrite <- IH. Qed.

(** Facts about one code unit, each checked on the 256 of them. *)
Lemma encode_unit_kept_b c : forallb kept (list_ascii_of_string (encode_unit c)) = true.
Proof. each_unit c; vm_compute; reflexivity. Qed.

Lemma kept_not_b c :
  kept c = true → forallb (λ sep, negb (Ascii.eqb c sep)) ["#"; "?"; "&"; "="; "+"]%char = true.
Proof. each_unit c; vm_compute; congruence. Qed.

Lemma kept_low c : kept c = true → utf8 c = [c].
Proof. each_unit c; vm_compute; congruence. Qed.

Lemma unreserved_plain c : unreserved c = true → Ascii.eqb c "%" = false.
Proof. each_unit c; vm_compute; congruence. Qed.

Lemma hex_round_trip byte :
  let n := N_of_ascii byte in
  hex_value (hex_digit (n / 16)) = Some (n / 16)%N ∧
  hex_value (hex_digit (n mod 16)) = Some (n mod 16)%N ∧
  ascii_of_N (16 * (n / 16) + n mod 16) = byte.
Proof. each_unit byte; vm_compute; auto. Qed.

Lemma utf8_cases c :
  match utf8 c with
  | [b] => b = c ∧ (N_of_ascii b <? 128)%N = true
  | [lead; cont] =>
      (N_of_ascii lead <? 128)%N = false ∧
      ((N_of_ascii lead =? 194) || (N_of_ascii lead =? 195))%N = true ∧
      ((128 <=? N_of_ascii cont) && (N_of_ascii cont <? 192))%N = true ∧
      ascii_of_N ((N_of_ascii lead - 192) * 64 + (N_of_ascii cont - 128)) = c
  | _ => False
  end.
Proof. each_unit c; vm_compute; auto. Qed.

Lemma encode_unit_kept c : Forall (λ b, kept b = true) (list_ascii_of_string (encode_unit c)).
Proof.
  apply Forall_forall. intros b Hb. apply list_elem_of_In in Hb.
  pose proof (encode_unit_kept_b c) as H. rewrite forallb_forall in H. auto.
Qed.

Lemma encoded_kept t :
  Forall (λ b, kept b = true) (list_ascii_of_string (encodeURIComponent t)).
Proof.
  induction t as [|c t IH]; [constructor|].
  cbn [encodeURIComponent]. rewrite list_ascii_app. apply Forall_app. split; [|done].
  apply encode_unit_kept.
Qed.

Lemma kept_not c sep :
  kept c = true → sep ∈ ["#"; "?"; "&"; "="; "+"]%char → Ascii.eqb c sep = false.
Proof.
  intros Hc Hs. pose proof (kept_not_b c Hc) as H. rewrite forallb_forall in H.
  apply list_elem_of_In, H in Hs. by apply negb_true_iff.
Qed.

Lemma break_at_absent sep s :
  Forall (λ b, Ascii.eqb b sep = false) (list_ascii_of_string s) →
  break_at sep s = (s, EmptyString).
Proof.
  induction s as [|c s IH]; [done|]. cbn. intros H. inversion H as [|? ? Hc Hs]; subst.
  rewrite Hc, IH; done.
Qed.

Lemma utf8_encode_low s :
  Forall (λ b, utf8 b = [b]) (list_ascii_of_string s) →
  utf8_encode s = list_ascii_of_string s.
Proof.
  unfold utf8_encode. induction (list_ascii_of_string s) as [|c l IH]; [done|].
  intros H. inversion H as [|? ? Hc Hl]; subst. cbn [flat_map]. rewrite Hc.
  cbn [app]. by rewrite IH.
Qed.

Lemma split_on_absent sep l :
  Forall (λ b, Ascii.eqb b sep = false) l → split_on sep l = [l].
Proof.
  induction l as [|c l IH]; [done|]. intros H. inversion H as [|? ? Hc Hl]; subst.
  cbn [split_on]. rewrite Hc, IH; done.
Qed.

Lemma plus_to_space_absent l :
  Forall (λ b, Ascii.eqb b "+" = false) l → plus_to_space l = l.
Proof.
  induction l as [|c l IH]; [done|]. intros H. inversion H as [|? ? Hc Hl]; subst.
  unfold plus_to_space in *. cbn [fmap list_fmap]. rewrite Hc. f_equal. by apply IH.
Qed.

Lemma percent_decode_plain b rest :
  Ascii.eqb b "%" = false → percent_decode (b :: rest) = b :: percent_decode rest.
Proof. intros H. cbn [percent_decode]. by rewrite H. Qed.

Lemma percent_decode_percent byte rest :
  percent_decode (list_ascii_of_string (percent byte) ++ rest) = byte :: percent_decode rest.
Proof.
  destruct (hex_round_trip byte) as (H1 & H2 & H3). cbv zeta in *.
  unfold percent. cbn [list_ascii_of_string app percent_decode].
  rewrite Ascii.eqb_refl, H1, H2, H3. done.
Qed.

Lemma percent_decode_unit c rest :
  percent_decode (list_ascii_of_string (encode_unit c) ++ rest) = utf8 c ++ percent_decode rest.
Proof.
  unfold encode_unit. destruct (unreserved c) eqn:Hc.
  - cbn [list_ascii_of_string app]. rewrite percent_decode_plain by by apply unreserved_plain.
    rewrite kept_low; [done|]. unfold kept. by rewrite Hc.
  - pose proof (utf8_cases c) as H.
    destruct (utf8 c) as [|lead [|cont [|? ?]]]; try done.
    + cbn [fmap list_fmap String.concat]. rewrite percent_decode_percent. reflexivity.
    + cbn [fmap list_fmap String.concat]. rewrite list_ascii_app, <- app_assoc.
      change ("" +:+ percent cont) with (percent cont).
      rewrite !percent_decode_percent. reflexivity.
Qed.

Lemma percent_decode_encoded t :
  percent_decode (list_ascii_of_string (encodeURIComponent t)) = utf8_encode t.
Proof.
  induction t as [|c t IH]; [done|].
  cbn [encodeURIComponent]. rewrite list_ascii_app, percent_decode_unit, IH. done.
Qed.

Lemma utf8_decode_unit c rest :
  utf8_decode (utf8 c ++ rest) = String c <$> utf8_decode rest.
Proof.
  pose proof (utf8_cases c) as H.
  destruct (utf8 c) as [|lead [|cont [|? ?]]]; try done.
  - destruct H as [-> Hlow]. cbn [app utf8_decode]. by rewrite Hlow.
  - destruct H as (Hhigh & Hlead & Hcont & Hc).
    cbn [app utf8_decode]. by rewrite Hhigh, Hlead, Hcont, Hc.
Qed.

Lemma utf8_decode_encode t : utf8_decode (utf8_encode t) = Some t.
Proof.
  unfold utf8_encode. induction t as [|c t IH]; [done|].
  cbn [list_ascii_of_string flat_map]. rewrite utf8_decode_unit, IH. done.
Qed.

Lemma encoded_without sep t :
  sep ∈ ["#"; "?"; "&"; "="; "+"]%char →
  Forall (λ b, Ascii.eqb b sep = false) (list_ascii_of_string (encodeURIComponent t)).
Proof.
  intros Hs. eapply Forall_impl; [apply encoded_kept|]. intros b Hb. by apply kept_not.
Qed.

Lemma decode_encoded t :
  decode (list_ascii_of_string (encodeURIComponent t)) = Some t.
Proof.
  unfold decode. rewrite plus_to_space_absent by (apply encoded_without; in_list).
  by rewrite percent_decode_encoded, utf8_decode_encode.
Qed.

Lemma query_round_trip t :
  let to := "/search?q=" +:+ encodeURIComponent t in
  pathname (parsePath to) = "/search" ∧
  get "q" (search (parsePath to)) = Some (Some t).
Proof.
  intros to. subst to.
  assert (parsePath ("/search?q=" +:+ encodeURIComponent t)
          = mkPath "/search" ("?q=" +:+ encodeURIComponent t) "") as ->.
  { unfold parsePath.
    change ("/search?q=" +:+ encodeURIComponent t)
      with (String "/" (String "s" (String "e" (String "a" (String "r" (String "c"
             (String "h" (String "?" (String "q" (String "=" (encodeURIComponent t))))))))))).
    cbn [break_at Ascii.eqb Bool.eqb].
    rewrite (break_at_absent "#") by (apply encoded_without; in_list).
    cbn [break_at Ascii.eqb Bool.eqb]. reflexivity. }
  split; [done|]. cbn [search]. unfold get, pairs.
  change ("?q=" +:+ encodeURIComponent t)
    with (String "?" (String "q" (String "=" (encodeURIComponent t)))).
  cbv iota beta.
  rewrite utf8_encode_low.
  2: { cbn [list_ascii_of_string]. repeat (constructor; [reflexivity|]).
       eapply Forall_impl; [apply encoded_kept|]. intros b Hb. by apply kept_low. }
  cbn [list_ascii_of_string].
  rewrite split_on_absent.
  2: { repeat (constructor; [reflexivity|]). apply encoded_without. in_list. }
  rewrite filter_cons_True by done. rewrite filter_nil.
  cbn [fmap list_fmap name_value Ascii.eqb Bool.eqb].
  rewrite decode_encoded.
  assert (decode ["q"%char] = Some "q") as -> by reflexivity.
  cbn [lookup_pair]. rewrite bool_decide_true by done. done.
Qed.


End UrlProofs.

(** ** The sign-in modal *)
Section AuthModalProofs.
Import AuthModal.

Ltac submit_unfold :=
  unfold submit, handleSubmit, await, Action.put, mbind, mret, Action_bind, Action_ret in *.

Ltac store_answer :=
  match goal with
  | |- context [signIn ?a ?e ?p ?s] => destruct (signIn a e p s) as [[[]|?] ?] eqn:?
  | |- context [signUp ?a ?e ?p ?n ?s] => destruct (signUp a e p n s) as [[[]|?] ?] eqn:?
  | |- context [resetPassword ?a] => destruct (resetPassword a) as [?|] eqn:?
  | |- context [let '(_, _) := ?f ?e ?s in _] => destruct (f e s) as [[[]|?] ?] eqn:?
  | |- context [instanceof_Error ?e] => destruct (instanceof_Error e) eqn:?
  | |- context [includes ?a ?b || includes ?a ?c] =>
      destruct (includes a b || includes a c) eqn:?
  | |- context [Js.truthy ?x] => destruct (Js.truthy x) eqn:?
  end.

(** X17.  Submitting the sign-in modal never rejects and leaves the
    typed fields as they are.  It makes at most one call into the auth
    store, the one of the current mode, and when it makes none an error
    is shown.  The error line and the message line are never both set
    afterwards, and the modal asks to be closed only after a sign-in that
    the store accepted. *)
Theorem submit_settles {Srv} (auth : Auth Srv) s env :
  let r := submit auth s env in
  r.1.1 = Fulfilled tt ∧
  email r.1.2 = email s ∧ password r.1.2 = password s ∧ fullName r.1.2 = fullName s ∧
  (error r.1.2 = None ∨ message r.1.2 = None) ∧
  (made r.2 = made env ∧ store r.2 = store env ∧ is_Some (error r.1.2) ∨
   ∃ c, made r.2 = made env ++ [c] ∧
        c = match mode s with
            | signin => CalledSignIn (email s) (password s)
            | signup => CalledSignUp (email s) (password s) (fullName s)
            | reset => CalledResetPassword (email s)
            end) ∧
  (onClose_calls r.1.2 = onClose_calls s ∨
   onClose_calls r.1.2 = S (onClose_calls s) ∧ mode s = signin ∧
   error r.1.2 = None ∧ message r.1.2 = None ∧
   (signIn auth (email s) (password s) (store env)).1 = Fulfilled tt).
Proof.
  intros r. subst r. submit_unfold. destruct s as [m e p n er ms k]. simpl.
  destruct m; simpl; repeat (store_answer; simpl).
  all: split_and!; try done; eauto 10.
Qed.


Lemma sign_ins_snoc calls c :
  sign_ins (calls ++ [c]) = sign_ins calls + (if is_sign_in c then 1 else 0).
Proof.
  unfold sign_ins. rewrite filter_app, length_app. f_equal.
  destruct c; reflexivity.
Qed.

Lemma step_invariants {Srv} (auth : Auth Srv) initialMode s env e :
  exclusive s →
  let x := step auth initialMode (s, env) e in
  exclusive x.1 ∧
  length (made x.2) ≤ length (made env) + submits [e] ∧
  onClose_calls x.1 + sign_ins (made env)
  ≤ onClose_calls s + close_clicks [e] + sign_ins (made x.2).
Proof.
  intros Hs x. subst x. unfold step.
  destruct (rendered s e); simpl; [|split_and!; [done|lia|lia]].
  destruct e; simpl; try (split_and!; [by (done || left)|lia|lia]).
  - submit_unfold. destruct s as [m e p n er ms k]. simpl.
    destruct m; simpl; repeat (store_answer; simpl).
    all: rewrite ?length_app, ?sign_ins_snoc; simpl.
    all: split_and!; [by (left + right)|unfold submits; simpl; lia|lia].
  - split_and!; [by left|lia|]. unfold close, close_clicks. simpl. lia.
Qed.

Lemma exec_invariants {Srv} (auth : Auth Srv) initialMode events s env :
  exclusive s →
  let x := exec auth initialMode events (s, env) in
  exclusive x.1 ∧
  length (made x.2) ≤ length (made env) + submits events ∧
  onClose_calls x.1 + sign_ins (made env)
  ≤ onClose_calls s + close_clicks events + sign_ins (made x.2).
Proof.
  revert s env. induction events as [|e events IH]; intros s env Hs.
  { simpl. split_and!; [done|lia|lia]. }
  change (exec auth initialMode (e :: events) (s, env))
    with (exec auth initialMode events (step auth initialMode (s, env) e)).
  pose proof (step_invariants auth initialMode s env e Hs) as (H1 & H2 & H3).
  destruct (step auth initialMode (s, env) e) as [s1 env1] eqn:E.
  specialize (IH s1 env1 H1) as (I1 & I2 & I3). cbv zeta. simpl in H1, H2, H3.
  split; [done|].
  assert (submits (e :: events) = submits [e] + submits events) as ->.
  { unfold submits. change (e :: events) with ([e] ++ events).
    by rewrite filter_app, length_app. }
  assert (close_clicks (e :: events) = close_clicks [e] + close_clicks events) as ->.
  { unfold close_clicks. change (e :: events) with ([e] ++ events).
    by rewrite filter_app, length_app. }
  lia.
Qed.


(** X19.  In sign-up mode a full name that is blank after trimming is
    refused in the modal: the auth store is not called, the error line
    says that the name is required, and the mode stays sign-up. *)
Theorem blank_name_is_not_sent {Srv} (auth : Auth Srv) s env :
  mode s = signup →
  Js.truthy (Js.trim (fullName s)) = false →
  let r := submit auth s env in
  r.2 = env ∧
  r.1.2 = setMessage None (setError (Some "Full name is required") s) ∧
  mode r.1.2 = signup.
Proof.
  intros Hm Hn r. subst r. submit_unfold. destruct s as [m e p n er ms k]. simpl in *.
  subst m. rewrite Hn. simpl. done.
Qed.

Lemma blank_name_is_not_sent_witness :
  let s := mkState signup "a@x.org" "pw" "   " None None 0 in
  let r := submit AuthDemo.accounts s (mkSession [] []) in
  made r.2 = [] ∧ error r.1.2 = Some "Full name is required".
Proof.
  intros s r.
  destruct (blank_name_is_not_sent AuthDemo.accounts s (mkSession [] []))
    as (Henv & Hst & _); [reflexivity|reflexivity|].
  fold r in Henv, Hst. rewrite Henv, Hst. split; reflexivity.
Defined.

(** X20.  A sign-up that the store rejects because the user is
    registered already turns the modal into the sign-in form, with the
    fixed error line and the typed email and password kept: submitting
    again signs in with them. *)
Theorem registered_user_is_led_to_sign_in {Srv} (auth : Auth Srv) s env err srv' :
  mode s = signup →
  Js.truthy (Js.trim (fullName s)) = true →
  signUp auth (email s) (password s) (fullName s) (store env) = (Rejected err, srv') →
  instanceof_Error err = true →
  includes (Supabase.message err) "User already registered" = true ∨
  includes (Supabase.message err) "User already exists" = true →
  let x := step auth signup (s, env) Submit in
  let y := step auth signup x Submit in
  mode x.1 = signin ∧
  error x.1 = Some already_registered ∧
  message x.1 = None ∧
  made y.2 = made env ++ [CalledSignUp (email s) (password s) (fullName s);
                          CalledSignIn (email s) (password s)].
Proof.
  intros Hm Hn Hup He Hinc x y. subst y x. unfold step. simpl.
  submit_unfold. destruct s as [m e p n er ms k]. simpl in *. subst m.
  rewrite Hn. simpl. rewrite Hup. simpl. rewrite He.
  assert (includes (Supabase.message err) "User already registered"
          || includes (Supabase.message err) "User already exists" = true) as ->.
  { destruct Hinc as [-> | ->]; [done|by rewrite orb_true_r]. }
  simpl. split_and!; try done.
  destruct (signIn auth e p srv') as [[[]|?] ?]; simpl.
  - by rewrite <- app_assoc.
  - repeat (store_answer; simpl). all: by rewrite <- app_assoc.
Qed.


Lemma registered_user_is_led_to_sign_in_witness :
  let env := mkSession ["a@x.org"] [] in
  let x := step AuthDemo.accounts signup (AuthDemo.filled, env) Submit in
  let y := step AuthDemo.accounts signup x Submit in
  mode x.1 = signin ∧
  made y.2 = [CalledSignUp "a@x.org" "pw" " Ann "; CalledSignIn "a@x.org" "pw"] ∧
  onClose_calls y.1 = 1.
Proof.
  intros env x y.
  destruct (registered_user_is_led_to_sign_in AuthDemo.accounts AuthDemo.filled env
              (mkError "AuthApiError: User already registered" true) ["a@x.org"])
    as (Hm & _ & _ & Hmade).
  - reflexivity.
  - reflexivity.
  - vm_compute. reflexivity.
  - reflexivity.
  - left. vm_compute. reflexivity.
  - split_and!; [exact Hm|exact Hmade|vm_compute; reflexivity].
Defined.

End AuthModalProofs.

(** ** The club page *)
Section ClubDetailProofs.
Import Page ClubDetail.

Ltac detail_unfold :=
  unfold visit, fetchClubData, withCount, throw_if, await_rows, await_row, set_state,
    console, mbind, mret, Async_bind, Async_ret in *.

Lemma run_for_each b rows (w : World State) :
  run b (for_each withCount rows) w =
  (Fulfilled (counted b rows),
   mkWorld (ui w) (calls w ++ (countQuery <$> rows)) (console_lines w)).
Proof.
  revert w. induction rows as [|row rows IH]; intros w.
  { simpl. rewrite app_nil_r. by destruct w. }
  cbn [for_each]. detail_unfold. cbn [bind run]. rewrite run_bind, IH. simpl.
  by rewrite <- app_assoc.
Qed.

Lemma visit_run b cid user today st :
  Js.truthy cid = true →
  let r1 := fetch_row b (clubQuery cid) in
  let r2 := fetch_rows b (eventsQuery cid today) in
  let rows := default [] (data r2) in
  let failed e :=
    mkState None [] (isMember st) false
            (Some (error_text "Failed to load club details." e))
            (actionLoading st) (isEditModalOpen st) in
  let line := ["Error fetching club details:"] in
  visit b (Some cid) user today st =
  match Supabase.error r1 with
  | Some e => (Fulfilled tt, mkWorld (failed e) [clubQuery cid] line)
  | None =>
    match data r1 with
    | None =>
        (Fulfilled tt,
         mkWorld (failed (mkError "Club not found." true)) [clubQuery cid] line)
    | Some c =>
      match Supabase.error r2 with
      | Some e =>
          (Fulfilled tt,
           mkWorld (failed e) [clubQuery cid; eventsQuery cid today] line)
      | None =>
        let sent := [clubQuery cid; eventsQuery cid today] ++ (countQuery <$> rows) in
        match logged_in_id user with
        | None =>
            (Fulfilled tt,
             mkWorld (mkState (Some c) (counted b rows) false false None
                              (actionLoading st) (isEditModalOpen st))
                     sent [])
        | Some uid =>
            let m := maybeSingle (fetch_rows b (membershipQuery uid cid)) in
            match Supabase.error m with
            | Some e =>
                (Fulfilled tt,
                 mkWorld (failed e) (sent ++ [membershipQuery uid cid]) line)
            | None =>
                (Fulfilled tt,
                 mkWorld (mkState (Some c) (counted b rows) (bool_decide (is_Some (data m)))
                                  false None (actionLoading st) (isEditModalOpen st))
                         (sent ++ [membershipQuery uid cid]) [])
            end
        end
      end
    end
  end.
Proof.
  intros Hc. cbv zeta. unfold visit, fetchClubData. rewrite Hc.
  unfold throw_if, await_rows, await_row, set_state, console, mbind, mret, Async_bind,
    Async_ret.
  cbn [bind run finally try_catch initial ui calls console_lines].
  destruct (Supabase.error (fetch_row b (clubQuery cid))) as [e|] eqn:E1; [done|].
  cbn [bind run finally try_catch initial ui calls console_lines].
  destruct (data (fetch_row b (clubQuery cid))) as [c|] eqn:D1; [|done].
  cbn [bind run finally try_catch initial ui calls console_lines app].
  destruct (Supabase.error (fetch_rows b (eventsQuery cid today))) as [e|] eqn:E2; [done|].
  cbn [bind run finally try_catch].
  rewrite run_finally, run_try_catch, run_bind, run_for_each.
  cbn [bind run finally try_catch initial ui calls console_lines app].
  destruct (logged_in_id user) as [uid|]; cbn [bind run ui calls console_lines]; [|done].
  destruct (Supabase.error (maybeSingle (fetch_rows b (membershipQuery uid cid))));
    cbn [bind run ui calls console_lines]; done.
Qed.


(** X21.  A visit of the club page never rejects and ends with the
    loading flag cleared.  When it ends with an error the membership flag
    is as before, and, unlike the clubs directory, the club and its
    events are cleared as soon as a request was sent.  Without an error a
    club is held.  The "Club not found." line can be on the screen after
    a visit only under an empty error text. *)
Theorem failed_visit_clears_page b clubId user today st :
  let r := visit b clubId user today st in
  r.1 = Fulfilled tt ∧
  loading (ui r.2) = false ∧
  (∀ text, error (ui r.2) = Some text →
     isMember (ui r.2) = isMember st ∧
     (calls r.2 = [] →
        text = "Club ID not found." ∧ club (ui r.2) = club st ∧ events (ui r.2) = events st) ∧
     (calls r.2 ≠ [] → club (ui r.2) = None ∧ events (ui r.2) = [])) ∧
  (error (ui r.2) = None → is_Some (club (ui r.2))) ∧
  (render user (ui r.2) = ClubNotFound → error (ui r.2) = Some "").
Proof.
  intros r. subst r.
  assert (∀ text, render user (mkState None [] (isMember st) false (Some text)
                                         (actionLoading st) (isEditModalOpen st))
                  = ClubNotFound → Some text = Some "") as Hblank.
  { intros text. unfold render. simpl. unfold Js.truthy.
    destruct (String.eqb_spec text ""); simpl; [by subst|done]. }
  destruct clubId as [cid|]; [destruct (Js.truthy cid) eqn:Hc|].
  2,3: unfold visit, fetchClubData; rewrite ?Hc; simpl;
       split_and!; try done; intros text [= <-]; split_and!; done.
  rewrite (visit_run b cid user today st Hc). cbv zeta.
  repeat (case_match; simpl); split_and!; try done; eauto.
  all: try (intros text [= <-]; split_and!; try done; intros [=]%symmetry%app_cons_not_nil).
  all: try (intros text [= <-]; split_and!; try done;
            intros [=]%(f_equal length); rewrite ?length_app in *; simpl in *; lia).
Qed.


Ltac handler_unfold :=
  unfold Page.perform, handleJoin, handleLeave, handleDeleteClub, write, raise_if, log, alert,
    confirm, navigate, Action.perform_effect, Action.put, mbind, mret, Action_bind,
    Action_ret in *.

(** X22.  On the reference backend a visit that ends without an error
    lists the events in ascending order of their date, each one a row of
    the events table that belongs to the club and is dated today or
    later.  The number shown with an event is the number of its
    registrations, and 0 when the count request failed: a failed count
    request is no error of the visit. *)
Theorem visit_lists_upcoming_events srv cid user today st :
  Js.truthy cid = true →
  let r := visit (Postgrest.serve srv) (Some cid) user today st in
  error (ui r.2) = None →
  StronglySorted (λ c1 c2, Postgrest.row_le "date" true (event c1) (event c2))
                 (events (ui r.2)) ∧
  ∀ card, card ∈ events (ui r.2) →
    event card ∈ Postgrest.rows_of (Postgrest.db srv) "events" ∧
    Postgrest.text (event card) "club_id" = Some cid ∧
    (∃ date, Postgrest.text (event card) "date" = Some date ∧ String.leb today date = true) ∧
    ∀ id, event card !! "id" = Some (VStr id) →
      registered_count card =
      match Postgrest.outage srv (countQuery (event card)) with
      | Some _ => 0
      | None => length (filter (λ row, Postgrest.text row "event_id" = Some id)
                               (Postgrest.rows_of (Postgrest.db srv) "event_registrations"))
      end.
Proof.
  intros Hc r. subst r. rewrite (visit_run _ cid user today st Hc). cbv zeta.
  set (b := Postgrest.serve srv).
  assert (∀ rows, rows = default [] (data (fetch_rows b (eventsQuery cid today))) →
          StronglySorted (λ c1 c2, Postgrest.row_le "date" true (event c1) (event c2))
                         (counted b rows) ∧
          ∀ card, card ∈ counted b rows →
            event card ∈ Postgrest.rows_of (Postgrest.db srv) "events" ∧
            Postgrest.text (event card) "club_id" = Some cid ∧
            (∃ date, Postgrest.text (event card) "date" = Some date ∧
                     String.leb today date = true) ∧
            ∀ id, event card !! "id" = Some (VStr id) →
              registered_count card =
              match Postgrest.outage srv (countQuery (event card)) with
              | Some _ => 0
              | None => length (filter (λ row, Postgrest.text row "event_id" = Some id)
                                  (Postgrest.rows_of (Postgrest.db srv) "event_registrations"))
              end) as Hcards.
  { intros rows ->. subst b. simpl. unfold Postgrest.rows_response at 1 2.
    destruct (Postgrest.outage srv (eventsQuery cid today)); simpl.
    { split; [constructor|]. intros card Hin. by apply elem_of_nil in Hin. }
    split.
    - unfold counted.
      eapply StronglySorted_fmap; [|apply (select_all_sorted _ _ _ "date" true); [done|in_list]].
      done.
    - intros card (row & -> & Hrow)%list_elem_of_fmap. simpl.
      pose proof Hrow as (r0 & Hp & Hin & Hsat)%select_rows_elem.
      rewrite project_all in Hp by in_list. subst r0.
      unfold Postgrest.satisfies in Hsat. simpl in Hsat.
      destruct (Postgrest.text row "club_id") as [x|] eqn:Ec; [|done].
      destruct (String.eqb_spec x cid) as [->|]; [|done]. simpl in Hsat.
      destruct (Postgrest.text row "date") as [d|] eqn:Ed; [|done].
      rewrite andb_true_r in Hsat.
      split_and!; [done|done|by eauto|].
      intros id Hid. unfold Postgrest.rows_response.
      destruct (Postgrest.outage srv (countQuery row)); simpl; [done|].
      unfold count. simpl. unfold Postgrest.select_rows, Postgrest.capped, Postgrest.ordered.
      simpl. rewrite length_fmap. f_equal. apply list_filter_iff. intros reg.
      unfold Postgrest.satisfies. simpl. rewrite Hid. simpl.
      destruct (Postgrest.text reg "event_id") as [y|]; simpl; [|done].
      rewrite andb_true_r. destruct (String.eqb_spec y id); split; congruence. }
  specialize (Hcards _ eq_refl).
  repeat (case_match; simpl; try done).
Qed.

Lemma visit_lists_upcoming_events_witness :
  let r := visit (Postgrest.serve DetailDemo.server) (Some "c-chess") (Some Sample.alice)
                 Sample.today initialState in
  StronglySorted (λ c1 c2, Postgrest.row_le "date" true (event c1) (event c2))
                 (events (ui r.2)) ∧
  (λ card, (event card !! "id", registered_count card)) <$> events (ui r.2)
  = [(Some (VStr "e-open"), 0); (Some (VStr "e-blitz"), 2)].
Proof.
  intros r. split; [|vm_compute; reflexivity].
  apply (visit_lists_upcoming_events DetailDemo.server "c-chess" (Some Sample.alice)
           Sample.today initialState).
  - reflexivity.
  - vm_compute. reflexivity.
Defined.

(** X23.  Deleting the club from its page, on the reference backend:
    the page leaves for the directory only after the user confirmed and
    the table holds no club with that id any more; when the page does not
    leave, the database is as it was.  The club stays in the state either
    way. *)
Theorem detail_delete_leaves_page answers srv user c cid st :
  c !! "id" = Some (VStr cid) →
  let r := Page.perform (PostgrestWrites.service answers)
                        (handleDeleteClub user (Some c)) st srv in
  let db := Postgrest.db (PostgrestWrites.store srv) in
  let db' := Postgrest.db (PostgrestWrites.store (server r.2)) in
  r.1.1 = Fulfilled tt ∧
  club r.1.2 = club st ∧
  (Went "/clubs" ∈ steps r.2 →
     (∀ row, row ∈ Postgrest.rows_of db' "clubs" → Postgrest.text row "id" ≠ Some cid) ∧
     is_Some user ∧ answers confirm_delete = true) ∧
  (Went "/clubs" ∉ steps r.2 → db' = db).
Proof.
  intros Hid r db db'. subst r db db'. handler_unfold.
  destruct user as [u|]; simpl.
  2: { split_and!; try done. by intros ?%elem_of_nil. }
  destruct (answers confirm_delete) eqn:Hyes; simpl.
  2: { split_and!; try done. intros H. repeat (apply elem_of_cons in H as [[=]|H]).
       by apply elem_of_nil in H. }
  unfold PostgrestWrites.commit.
  destruct (PostgrestWrites.refused srv (deleteRequest c)) as [e|] eqn:Href; simpl.
  - split_and!; try done. intros H. repeat (apply elem_of_cons in H as [[=]|H]).
    by apply elem_of_nil in H.
  - split_and!; try done.
    + intros _. split_and!; [|by eauto|done].
      intros row Hrow. unfold deleteRequest in Hrow. simpl in Hrow.
      rewrite rows_of_insert in Hrow. apply list_elem_of_filter in Hrow as [Hno _].
      intros Hrowid. simpl in Hno. rewrite Hid, Hrowid in Hno. simpl in Hno.
      by rewrite String.eqb_refl in Hno.
    + intros H. exfalso. apply H. in_list.
Qed.

Lemma detail_delete_leaves_page_witness :
  let chess := Demo.club "c-chess" "Chess club" "u-bob" in
  let r := Page.perform (PostgrestWrites.service Demo.yes)
             (handleDeleteClub (Some Sample.alice) (Some chess)) initialState
             DetailDemo.site in
  Forall (λ row, Postgrest.text row "id" ≠ Some "c-chess")
         (Postgrest.rows_of (Postgrest.db (PostgrestWrites.store (server r.2))) "clubs") ∧
  length (Postgrest.rows_of (Postgrest.db (PostgrestWrites.store (server r.2))) "clubs") = 1.
Proof.
  intros chess r. split; [|vm_compute; reflexivity].
  apply Forall_forall.
  apply (detail_delete_leaves_page Demo.yes DetailDemo.site (Some Sample.alice) chess
           "c-chess" initialState).
  - reflexivity.
  - vm_compute. in_list.
Defined.

Lemma membership_rows db uid cid :
  Postgrest.select_rows db (membershipQuery uid cid) ["club_id"] =
  Postgrest.project ["club_id"] <$>
    filter (λ row, Postgrest.text row "user_id" = Some uid ∧
                   Postgrest.text row "club_id" = Some cid)
           (Postgrest.rows_of db "club_memberships").
Proof.
  unfold Postgrest.select_rows, Postgrest.capped, Postgrest.ordered. simpl. f_equal.
  apply list_filter_iff. intros row. unfold Postgrest.satisfies. simpl.
  destruct (Postgrest.text row "user_id") as [x|]; [destruct (String.eqb_spec x uid)|];
    simpl.
  all: destruct (Postgrest.text row "club_id") as [y|]; [destruct (String.eqb_spec y cid)|];
    simpl.
  all: split; [intros H; try discriminate H; split; congruence
              |intros [H1 H2]; try done; congruence].
Qed.

Lemma visit_membership srv cid u today st :
  Js.truthy (user_id u) = true →
  let rows := filter (λ row, Postgrest.text row "user_id" = Some (user_id u) ∧
                             Postgrest.text row "club_id" = Some cid)
                     (Postgrest.rows_of (Postgrest.db srv) "club_memberships") in
  let after := isMember (ui (visit (Postgrest.serve srv) (Some cid) (Some u) today st).2) in
  after = isMember st ∨ after = true ∧ rows ≠ [] ∨ after = false ∧ rows = [].
Proof.
  intros Hu rows after. subst after.
  destruct (Js.truthy cid) eqn:Hc.
  2: { unfold visit, fetchClubData. rewrite Hc. by left. }
  rewrite visit_run by done. cbv zeta. unfold logged_in_id. rewrite Hu.
  destruct (Supabase.error (fetch_row _ (clubQuery cid))); [left; reflexivity|].
  destruct (data (fetch_row _ (clubQuery cid))); [|left; reflexivity].
  destruct (Supabase.error (fetch_rows _ (eventsQuery cid today))); [left; reflexivity|].
  assert (fetch_rows (Postgrest.serve srv) (membershipQuery (user_id u) cid) =
          match Postgrest.outage srv (membershipQuery (user_id u) cid) with
          | Some e => mkResponse None (Some e)
          | None => mkResponse (Some (Postgrest.project ["club_id"] <$> rows)) None
          end) as ->.
  { simpl. unfold Postgrest.rows_response.
    destruct (Postgrest.outage srv _); [done|]. simpl. by rewrite membership_rows. }
  destruct (Postgrest.outage srv (membershipQuery (user_id u) cid)); [left; reflexivity|].
  unfold maybeSingle. cbn [Supabase.error data].
  destruct rows as [|row [|row' more]]; cbn [fmap list_fmap Supabase.error data ui isMember].
  - right. right. split; [|done]. apply bool_decide_eq_false. by intros [? ?].
  - right. left. split; [|done]. apply bool_decide_eq_true. eauto.
  - left. reflexivity.
Qed.

(** X24.  On the reference backend the membership flag a successful
    join or leave sets is the one a refetch arrives at: visiting the page
    again after the action leaves the flag as the action set it, whether
    that visit succeeds or fails. *)
Theorem membership_survives_refetch answers srv u c cid today st :
  c !! "id" = Some (VStr cid) →
  Js.truthy (user_id u) = true →
  (let r := Page.perform (PostgrestWrites.service answers)
                         (handleJoin (Some u) (Some c)) st srv in
   PostgrestWrites.refused srv (joinRequest c u) = None →
   isMember r.1.2 = true ∧
   isMember (ui (visit (Postgrest.serve (PostgrestWrites.store (server r.2)))
                       (Some cid) (Some u) today r.1.2).2) = true) ∧
  (let r := Page.perform (PostgrestWrites.service answers)
                         (handleLeave (Some u) (Some c)) st srv in
   PostgrestWrites.refused srv (leaveRequest c u) = None →
   isMember r.1.2 = false ∧
   isMember (ui (visit (Postgrest.serve (PostgrestWrites.store (server r.2)))
                       (Some cid) (Some u) today r.1.2).2) = false).
Proof.
  intros Hid Hu. split.
  - intros r Href. subst r. handler_unfold. simpl. unfold PostgrestWrites.commit.
    rewrite Href. simpl. split; [done|].
    match goal with |- isMember (ui (visit (Postgrest.serve ?s) _ _ _ ?st1).2) = _ =>
      destruct (visit_membership s cid u today st1 Hu) as [->|[[-> _]|[_ Hrows]]] end;
      [done|done|].
    exfalso. revert Hrows. simpl. unfold joinRequest, object. simpl. rewrite Hid. simpl.
    rewrite rows_of_insert, filter_app.
    rewrite (filter_cons_True _ _ []).
    2: { split; apply text_Some; by simplify_map_eq. }
    intros [_ [=]]%app_eq_nil.
  - intros r Href. subst r. handler_unfold. simpl. unfold PostgrestWrites.commit.
    rewrite Href. simpl. split; [done|].
    match goal with |- isMember (ui (visit (Postgrest.serve ?s) _ _ _ ?st1).2) = _ =>
      destruct (visit_membership s cid u today st1 Hu) as [->|[[_ Hrows]|[-> _]]] end;
      [done| |done].
    exfalso. apply Hrows. simpl. unfold leaveRequest. simpl. rewrite Hid. simpl.
    rewrite rows_of_insert. apply elem_of_nil_inv. intros row Hrow.
    apply list_elem_of_filter in Hrow as [[H1 H2] Hrow].
    apply list_elem_of_filter in Hrow as [Hrow _]. revert Hrow.
    simpl. by rewrite H1, H2, !String.eqb_refl.
Qed.


Lemma membership_survives_refetch_witness :
  let film := Demo.club "c-film" "Film club" "u-alice" in
  let r := Page.perform (PostgrestWrites.service Demo.yes)
             (handleJoin (Some Sample.alice) (Some film)) initialState DetailDemo.site in
  isMember r.1.2 = true ∧
  isMember (ui (visit (Postgrest.serve (PostgrestWrites.store (server r.2)))
                      (Some "c-film") (Some Sample.alice) Sample.today r.1.2).2) = true.
Proof.
  intros film r.
  apply (membership_survives_refetch Demo.yes DetailDemo.site Sample.alice film "c-film"
           Sample.today initialState).
  - reflexivity.
  - reflexivity.
  - reflexivity.
Defined.

End ClubDetailProofs.
